(** * robinsons-matrixify: handle matching, gender tags and leader rows

    A shallow embedding of the decision logic of the catalogue scripts
    ([1-0-handle-extractor.py], [2-0-matrixify-segmenter.py],
    [3-0-size-extractor.py], [4-0-corgi-size_6_7.py],
    [4-2-happy-socks-gender-splitter.py], [5-0-unisex-adder.py]) and the
    properties that hold of it.

    Python values are modelled as follows.
    - A [str] is the list of its Unicode code points ([pystr]).
    - A spreadsheet cell value is [None], a [str] or an [int] ([cell]);
      floats, booleans and dates are outside the model.
    - A decoded JSON value is a [json]; a float is carried by its [repr]
      and never interpreted.
    - An exception is a value of [exn]; code that can raise returns a
      [result].
    - [str.lower], [unicodedata.normalize('NFKD', _)] and [json.loads]
      belong to the Python runtime, not to the repository: they are the
      fields of the class [PyLib], and every general statement holds for
      every instance.  [cpython_tbl] is an instance that agrees with
      CPython 3.11 on the code points and texts it documents; it is what
      the concrete evaluations below run on.
    - The interpreter's resource limits are outside the model: [json.loads]
      raises [ValueError] on an integer literal of more than 4300 digits,
      and [json.loads] and [json.dumps] raise [RecursionError] on nesting
      deeper than the recursion limit; the scripts catch neither.  A
      statement that a pass returns is a statement about sheets whose cells
      stay within these limits. *)

From Stdlib Require Import ZArith NArith Lia Ascii String DecimalString.
From stdpp Require Import base tactics option list functions gmap sets strings
  sorting.

Set Warnings "-register-all,-clear-no-such-hyp".

Local Open Scope N_scope.

(** ** Python strings *)

Abbreviation pystr := (list N).

(** The code points of an ASCII literal. *)
Definition u (s : string) : pystr :=
  (λ a, N_of_ascii a) <$> list_ascii_of_string s.

Definition HYPHEN : N := 45.
Definition COMMA : N := 44.

(** [c.isspace()]: the code points CPython 3.11 classifies as whitespace. *)
Definition isspace (c : N) : bool :=
  (9 <=? c) && (c <=? 13) || (28 <=? c) && (c <=? 32)
  || (c =? 133) || (c =? 160) || (c =? 5760)
  || (8192 <=? c) && (c <=? 8202)
  || (c =? 8232) || (c =? 8233) || (c =? 8239) || (c =? 8287) || (c =? 12288).

(** [c.isascii() and c.isalnum()]: 0-9, A-Z, a-z. *)
Definition isascii_alnum (c : N) : bool :=
  (48 <=? c) && (c <=? 57) || (65 <=? c) && (c <=? 90)
  || (97 <=? c) && (c <=? 122).

Fixpoint drop_while (p : N → bool) (s : pystr) : pystr :=
  match s with
  | [] => []
  | c :: s' => if p c then drop_while p s' else s
  end.

(** [s.strip(chars)] for a set of code points given as a predicate. *)
Definition strip_by (p : N → bool) (s : pystr) : pystr :=
  reverse (drop_while p (reverse (drop_while p s))).

(** [s.strip()] *)
Definition strip (s : pystr) : pystr := strip_by isspace s.

(** [s.strip('-')] *)
Definition strip_hyphens (s : pystr) : pystr := strip_by (N.eqb HYPHEN) s.

(** [s.split(sep)] for a one-character separator: never the empty list. *)
Fixpoint split_on (sep : N) (s : pystr) : list pystr :=
  match s with
  | [] => [[]]
  | c :: s' =>
      if c =? sep then [] :: split_on sep s'
      else match split_on sep s' with
           | w :: ws => (c :: w) :: ws
           | [] => [[c]]
           end
  end.

(** [s.replace(symbol, '')] for a one-character [symbol]. *)
Definition remove_char (symbol : N) (s : pystr) : pystr :=
  filter (λ c, c ≠ symbol) s.

(** ['--' in s] *)
Fixpoint has_double_hyphen (s : pystr) : bool :=
  match s with
  | a :: (b :: _) as s' => (a =? HYPHEN) && (b =? HYPHEN) || has_double_hyphen s'
  | _ => false
  end.

(** [s.replace('--', '-')]: one left-to-right pass over non-overlapping
    occurrences. *)
Fixpoint replace_double_hyphen_fuel (fuel : nat) (s : pystr) : pystr :=
  match fuel with
  | O => s
  | S fuel' =>
      match s with
      | a :: b :: s' =>
          if (a =? HYPHEN) && (b =? HYPHEN)
          then HYPHEN :: replace_double_hyphen_fuel fuel' s'
          else a :: replace_double_hyphen_fuel fuel' (b :: s')
      | _ => s
      end
  end.

Definition replace_double_hyphen (s : pystr) : pystr :=
  replace_double_hyphen_fuel (length s) s.

(** [str(z)] for an [int]. *)
Definition str_of_int (z : Z) : pystr := u (NilZero.string_of_int (Z.to_int z)).

(** ** Cells, JSON values, exceptions *)

Inductive cell :=
  | CNone
  | CStr (s : pystr)
  | CInt (z : Z).

Global Instance cell_eq_dec : EqDecision cell.
Proof. solve_decision. Defined.

Global Instance cell_countable : Countable cell.
Proof.
  refine (inj_countable'
    (λ c, match c with
          | CNone => inl ()
          | CStr s => inr (inl s)
          | CInt z => inr (inr z)
          end)
    (λ x, match x with
          | inl _ => CNone
          | inr (inl s) => CStr s
          | inr (inr z) => CInt z
          end) _).
  by intros [].
Defined.

(** [str(value)] for a cell value. *)
Definition str_of_cell (c : cell) : pystr :=
  match c with
  | CNone => u "None"
  | CStr s => s
  | CInt z => str_of_int z
  end.

(** [value == text] for a cell value and a [str]. *)
Definition cell_eq_str (c : cell) (text : pystr) : bool :=
  match c with
  | CStr s => bool_decide (s = text)
  | _ => false
  end.

Inductive json :=
  | JNull
  | JBool (b : bool)
  | JInt (z : Z)
  | JFloat (repr : pystr)
  | JStr (s : pystr)
  | JList (items : list json)
  | JDict (items : list (pystr * json)).

(** [value == text] for a decoded value and a [str]: only a [str] equals
    a [str]. *)
Definition json_eq_str (v : json) (text : pystr) : bool :=
  match v with
  | JStr s => bool_decide (s = text)
  | _ => false
  end.

Definition is_str (v : json) : bool :=
  match v with JStr _ => true | _ => false end.

Inductive exn :=
  | JSONDecodeError
  | TypeError
  | AttributeError
  | IndexError.

Global Instance exn_eq_dec : EqDecision exn.
Proof. solve_decision. Defined.

Inductive result (A : Type) :=
  | Ok (a : A)
  | Raise (e : exn).
Global Arguments Ok {A} a.
Global Arguments Raise {A} e.

Global Instance result_ret : MRet result := λ A a, Ok a.

Global Instance result_bind : MBind result := λ A B k m,
  match m with
  | Ok a => k a
  | Raise e => Raise e
  end.

(** [try: body / except caught: handler] *)
Definition try_except {A} (body : result A) (caught : list exn)
    (handler : result A) : result A :=
  match body with
  | Ok a => Ok a
  | Raise e => if bool_decide (e ∈ caught) then handler else Raise e
  end.

(** [for x in xs: st = step(st, x)], stopping at the first exception. *)
Fixpoint for_each {S X} (step : S → X → result S) (xs : list X) (st : S)
    : result S :=
  match xs with
  | [] => Ok st
  | x :: xs' => st' ← step st x; for_each step xs' st'
  end.

(** ** [json.dumps] with its default arguments

    [ensure_ascii=True], item separator [", "], key separator [": "]. *)

Definition hex_digit (d : N) : N := if d <? 10 then 48 + d else 87 + d.

Definition hex4 (n : N) : pystr :=
  [hex_digit ((n `div` 4096) `mod` 16); hex_digit ((n `div` 256) `mod` 16);
   hex_digit ((n `div` 16) `mod` 16); hex_digit (n `mod` 16)].

Definition BACKSLASH : N := 92.
Definition QUOTE : N := 34.

Definition escape_char (c : N) : pystr :=
  if c =? QUOTE then [BACKSLASH; QUOTE]
  else if c =? BACKSLASH then [BACKSLASH; BACKSLASH]
  else if c =? 10 then [BACKSLASH; 110]
  else if c =? 13 then [BACKSLASH; 114]
  else if c =? 9 then [BACKSLASH; 116]
  else if c =? 8 then [BACKSLASH; 98]
  else if c =? 12 then [BACKSLASH; 102]
  else if (32 <=? c) && (c <=? 126) then [c]
  else if c <? 65536 then BACKSLASH :: 117 :: hex4 c
  else
    let v := c - 65536 in
    (BACKSLASH :: 117 :: hex4 (N.lor 55296 (N.land (N.shiftr v 10) 1023)))
    ++ (BACKSLASH :: 117 :: hex4 (N.lor 56320 (N.land v 1023))).

Definition dumps_str (s : pystr) : pystr :=
  QUOTE :: concat (escape_char <$> s) ++ [QUOTE].

Fixpoint json_dumps (v : json) : pystr :=
  match v with
  | JNull => u "null"
  | JBool true => u "true"
  | JBool false => u "false"
  | JInt z => str_of_int z
  | JFloat repr => repr
  | JStr s => dumps_str s
  | JList items =>
      let fix go (l : list json) : pystr :=
        match l with
        | [] => []
        | x :: l' =>
            match l' with
            | [] => json_dumps x
            | _ => json_dumps x ++ u ", " ++ go l'
            end
        end in
      u "[" ++ go items ++ u "]"
  | JDict items =>
      let fix go (l : list (pystr * json)) : pystr :=
        match l with
        | [] => []
        | (k, x) :: l' =>
            match l' with
            | [] => dumps_str k ++ u ": " ++ json_dumps x
            | _ => dumps_str k ++ u ": " ++ json_dumps x ++ u ", " ++ go l'
            end
        end in
      u "{" ++ go items ++ u "}"
  end.

(** ** The Python runtime the scripts call *)

Class PyLib := {
  (** [s.lower()] *)
  str_lower : pystr → pystr;
  (** [unicodedata.normalize('NFKD', s)] *)
  nfkd : pystr → pystr;
  (** [json.loads(s)] for a [str]; [None] stands for [JSONDecodeError].
      The [ValueError] and [RecursionError] of the interpreter's limits have
      no counterpart here. *)
  json_loads : pystr → option json;
}.

(** ** openpyxl worksheets

    A row is the list of its cell values, column 1 first; a cell that does
    not exist reads as [None]. *)

Abbreviation row := (list cell).

Record worksheet := {
  header_row : row;
  data_rows : list row;
}.

(** [ws.cell(row=_, column=column).value] *)
Definition cell_value (r : row) (column : nat) : cell :=
  default CNone (r !! pred column).

(** [ws.max_column] as the copy loops read it.  [ws.cell(...)] creates the
    cell it is asked for, so once a loop has read column [touched] of a row
    the sheet is at least [touched] columns wide. *)
Definition max_column (ws : worksheet) (touched : nat) : nat :=
  touched `max` max_list (length <$> header_row ws :: data_rows ws).

Definition HANDLE_COL : nat := 2.
Definition BRAND_COL : nat := 6.
Definition SIZE_COL : nat := 8.
Definition GENDER_COL : nat := 95.

(** The copy loop shared by the three tagging scripts:
    [for col_idx in range(1, ws_input.max_column + 1)], the gender column
    receiving [gender_value] and every other column the source value. *)
Definition copy_row (width : nat) (r : row) (gender_value : cell) : row :=
  (λ col_idx, if bool_decide (col_idx = GENDER_COL) then gender_value
              else cell_value r col_idx) <$> seq 1 width.

(** ** The scripts *)

Section Scripts.
Context {L : PyLib}.

(** *** Tag-list codec ([4-0-corgi-size_6_7.py], repeated verbatim in
    [4-2-happy-socks-gender-splitter.py] and [5-0-unisex-adder.py]) *)

Definition parse_comma_separated_tags (value : cell) : list pystr :=
  if bool_decide (value = CNone) || cell_eq_str value [] then []
  else
    let tags := strip <$> split_on COMMA (str_of_cell value) in
    filter (λ tag, tag ≠ []) tags.

(** [json.loads(value)] for a cell value: a [TypeError] unless the value is a
    [str]. *)
Definition json_loads_cell (value : cell) : result json :=
  match value with
  | CStr s =>
      match json_loads s with
      | Some parsed => Ok parsed
      | None => Raise JSONDecodeError
      end
  | _ => Raise TypeError
  end.

(** The [isinstance(cell_value, list)] branch has no counterpart: no cell
    value is a list. *)
Definition parse_json_list (value : cell) : result (list json) :=
  if bool_decide (value = CNone) || cell_eq_str value [] then Ok []
  else
    try_except
      (parsed ← json_loads_cell value;
       match parsed with
       | JList items => Ok items
       | _ => Ok [parsed]
       end)
      [JSONDecodeError; TypeError]
      (Ok [JStr (str_of_cell value)]).

Definition format_json_list (values : list json) : pystr :=
  json_dumps (JList values).

(** *** Gender merge ([4-0-corgi-size_6_7.py]) *)

Definition get_opposite_gender (gender : pystr) : option pystr :=
  let gender_lower := str_lower gender in
  if bool_decide (gender_lower = u "male") then Some (u "Female")
  else if bool_decide (gender_lower = u "female") then Some (u "Male")
  else None.

(** [text in values] for a [str] and a list of decoded values. *)
Definition str_in (text : pystr) (values : list json) : bool :=
  existsb (λ g, json_eq_str g text) values.

Definition update_gender_list (current_genders : list json)
    (new_gender : pystr) : list json * bool :=
  if str_in new_gender current_genders then (current_genders, false)
  else
    let opposite := get_opposite_gender new_gender in
    let otherwise :=
      if str_in (u "Unisex") current_genders
      then (current_genders ++ [JStr new_gender], true)
      else if bool_decide (current_genders = [])
      then ([JStr new_gender], true)
      else (current_genders ++ [JStr new_gender], true) in
    match opposite with
    | Some opp =>
        if str_in opp current_genders
        then ((λ g, if json_eq_str g opp then JStr new_gender else g)
                <$> current_genders, true)
        else otherwise
    | None => otherwise
    end.

(** *** The row loop of [update_gender_tags] ([4-0-corgi-size_6_7.py])

    [brand_name], [size_label] and [gender] are the answers typed at the
    prompts.  The state is [seen_handles] and the data rows written to the
    output sheet so far, first row first; the prompts, the counters, the
    progress lines and the workbook files are left out. *)

Definition update_gender_tags_row (brand_name size_label gender : pystr)
    (width : nat) (st : gset cell * list row) (r : row)
    : result (gset cell * list row) :=
  let '(seen_handles, output) := st in
  let handle_value := cell_value r HANDLE_COL in
  let brand_value := cell_value r BRAND_COL in
  let size_tags := parse_comma_separated_tags (cell_value r SIZE_COL) in
  if cell_eq_str brand_value brand_name && bool_decide (size_label ∈ size_tags)
  then
    let is_first_occurrence := bool_decide (handle_value ∉ seen_handles) in
    if is_first_occurrence then
      current_genders ← parse_json_list (cell_value r GENDER_COL);
      let '(updated_genders, was_changed) :=
        update_gender_list current_genders gender in
      let seen_handles := {[handle_value]} ∪ seen_handles in
      Ok (seen_handles,
          output ++ [copy_row width r (CStr (format_json_list updated_genders))])
    else
      Ok (seen_handles, output ++ [copy_row width r CNone])
  else Ok st.

Definition update_gender_tags (brand_name size_label gender : pystr)
    (ws : worksheet) : result (list row) :=
  st ← for_each
         (update_gender_tags_row brand_name size_label gender
            (max_column ws GENDER_COL))
         (data_rows ws) (∅, []);
  Ok st.2.

(** *** Unisex completion ([5-0-unisex-adder.py]) *)

(** [g.lower()]: only a [str] has the method. *)
Definition lower_of (g : json) : result pystr :=
  match g with
  | JStr s => Ok (str_lower s)
  | _ => Raise AttributeError
  end.

(** [any(g.lower() == text for g in genders)] *)
Fixpoint any_lower_eq (text : pystr) (genders : list json) : result bool :=
  match genders with
  | [] => Ok false
  | g :: rest =>
      g_lower ← lower_of g;
      if bool_decide (g_lower = text) then Ok true
      else any_lower_eq text rest
  end.

Definition should_add_unisex (genders : list json) : result bool :=
  if bool_decide (genders = []) || bool_decide (length genders < 2)%nat
  then Ok false
  else
    has_male ← any_lower_eq (u "male") genders;
    has_female ← any_lower_eq (u "female") genders;
    has_unisex ← any_lower_eq (u "unisex") genders;
    Ok (has_male && has_female && negb has_unisex).

(** Lines 173-185 of [add_unisex_tags]: the list a first-occurrence row
    ends up with. *)
Definition add_unisex_if_complete (current_genders : list json)
    : result (list json) :=
  add ← should_add_unisex current_genders;
  if add : bool then Ok (current_genders ++ [JStr (u "Unisex")])
  else Ok current_genders.

Definition add_unisex_tags_row (width : nat) (st : gset cell * list row)
    (r : row) : result (gset cell * list row) :=
  let '(seen_handles, output) := st in
  let handle_value := cell_value r HANDLE_COL in
  let is_first_occurrence := bool_decide (handle_value ∉ seen_handles) in
  if is_first_occurrence then
    current_genders ← parse_json_list (cell_value r GENDER_COL);
    updated_genders ← add_unisex_if_complete current_genders;
    let seen_handles := {[handle_value]} ∪ seen_handles in
    let gender_value :=
      if bool_decide (updated_genders = []) then CNone
      else CStr (format_json_list updated_genders) in
    Ok (seen_handles, output ++ [copy_row width r gender_value])
  else
    Ok (seen_handles, output ++ [copy_row width r CNone]).

Definition add_unisex_tags (ws : worksheet) : result (list row) :=
  st ← for_each (add_unisex_tags_row (max_column ws GENDER_COL))
         (data_rows ws) (∅, []);
  Ok st.2.

(** *** Size classification and the three-way split
    ([4-2-happy-socks-gender-splitter.py]) *)

Inductive category :=
  | female_only
  | male_only
  | unisex.

Global Instance category_eq_dec : EqDecision category.
Proof. solve_decision. Defined.

Definition categorize_product (size_tags : list pystr)
    : option category * list pystr :=
  let has_36_40 := bool_decide (u "size_36_40" ∈ size_tags) in
  let has_41_46 := bool_decide (u "size_41_46" ∈ size_tags) in
  if has_36_40 && has_41_46
  then (Some unisex, [u "Female"; u "Male"; u "Unisex"])
  else if has_36_40 then (Some female_only, [u "Female"])
  else if has_41_46 then (Some male_only, [u "Male"])
  else (None, []).

(** The per-category dictionaries [seen_handles] and the data rows written
    to each of the three output sheets. *)
Record split_state := {
  split_seen : category → gset cell;
  split_output : category → list row;
}.

Definition split_happy_socks_row (width : nat) (st : split_state) (r : row)
    : split_state :=
  let handle_value := cell_value r HANDLE_COL in
  let brand_value := cell_value r BRAND_COL in
  let size_tags := parse_comma_separated_tags (cell_value r SIZE_COL) in
  if negb (cell_eq_str brand_value (u "Happy Socks")) then st
  else
    let '(cat, gender_list) := categorize_product size_tags in
    match cat with
    | None => st
    | Some cat =>
        let is_first_occurrence :=
          bool_decide (handle_value ∉ split_seen st cat) in
        let seen :=
          if is_first_occurrence
          then <[cat := {[handle_value]} ∪ split_seen st cat]> (split_seen st)
          else split_seen st in
        let gender_value :=
          if is_first_occurrence
          then CStr (format_json_list (JStr <$> gender_list))
          else CNone in
        {| split_seen := seen;
           split_output :=
             <[cat := split_output st cat ++ [copy_row width r gender_value]]>
               (split_output st) |}
    end.

(** The splitter reads columns 2, 6 and 8 only. *)
Definition split_happy_socks (ws : worksheet) : category → list row :=
  split_output
    (foldl (split_happy_socks_row (max_column ws SIZE_COL))
       {| split_seen := λ _, ∅; split_output := λ _, [] |}
       (data_rows ws)).

(** *** Handle matching ([2-0-matrixify-segmenter.py]) *)

Definition problematic_symbols : list N := [8482; 174; 169; 8480].

(** [not handle] *)
Definition falsy (handle : cell) : bool :=
  match handle with
  | CNone => true
  | CStr s => bool_decide (s = [])
  | CInt z => bool_decide (z = 0%Z)
  end.

(** [while '--' in s: s = s.replace('--', '-')], with one unit of fuel per
    iteration. *)
Fixpoint collapse_hyphens_fuel (fuel : nat) (s : pystr) : pystr :=
  if has_double_hyphen s then
    match fuel with
    | O => s
    | S fuel' => collapse_hyphens_fuel fuel' (replace_double_hyphen s)
    end
  else s.

Definition collapse_hyphens (s : pystr) : pystr :=
  collapse_hyphens_fuel (length s) s.

Definition normalize_handle (handle : cell) : pystr :=
  if falsy handle then []
  else
    let normalized := str_lower (str_of_cell handle) in
    let normalized :=
      foldl (λ acc symbol, remove_char symbol acc) normalized
        problematic_symbols in
    let normalized := nfkd normalized in
    let result :=
      filter (λ char, isascii_alnum char || (char =? HYPHEN)) normalized in
    let normalized := collapse_hyphens result in
    strip (strip_hyphens normalized).

(** [row[col_b - 1].value] on a row tuple. *)
Definition column_b (r : row) : result cell :=
  match r !! 1%nat with
  | Some value => Ok value
  | None => Raise IndexError
  end.

Definition extract_handles_row (st : gset pystr * gmap pystr pystr) (r : row)
    : result (gset pystr * gmap pystr pystr) :=
  let '(normalized_handles, handle_mapping) := st in
  handle_value ← column_b r;
  if bool_decide (handle_value ≠ CNone) then
    let handle_str := strip (str_of_cell handle_value) in
    if bool_decide (handle_str ≠ []) then
      let normalized := normalize_handle (CStr handle_str) in
      Ok ({[normalized]} ∪ normalized_handles,
          <[normalized := handle_str]> handle_mapping)
    else Ok st
  else Ok st.

(** [reference] holds the data rows of the reference sheet. *)
Definition extract_handles_from_reference (reference : list row)
    : result (gset pystr * gmap pystr pystr) :=
  for_each extract_handles_row reference (∅, ∅).

Definition extract_matching_row (handles : gset pystr)
    (handle_mapping : gmap pystr pystr) (matching_rows : list row) (r : row)
    : result (list row) :=
  handle_value ← column_b r;
  if bool_decide (handle_value ≠ CNone) then
    let handle_str := strip (str_of_cell handle_value) in
    let normalized_handle := normalize_handle (CStr handle_str) in
    if bool_decide (normalized_handle ∈ handles) then
      let original_handle :=
        default handle_str (handle_mapping !! normalized_handle) in
      let row_data := <[1%nat := CStr original_handle]> r in
      Ok (matching_rows ++ [row_data])
    else Ok matching_rows
  else Ok matching_rows.

(** [master] holds the data rows of the master sheet. *)
Definition extract_matching_rows (master : list row) (handles : gset pystr)
    (handle_mapping : gmap pystr pystr) : result (list row) :=
  for_each (extract_matching_row handles handle_mapping) master [].

(** Steps 1 and 2 of [main]. *)
Definition segment (reference master : list row) : result (list row) :=
  '(handles, handle_mapping) ← extract_handles_from_reference reference;
  extract_matching_rows master handles handle_mapping.

(** *** Size tags ([3-0-size-extractor.py]) and handle search
    ([1-0-handle-extractor.py])

    Both scripts open the workbook read-only and walk [ws.iter_rows], whose
    row tuples are indexed directly: a tuple too short for the index raises
    [IndexError]. *)

(** [row[i].value] on a row tuple. *)
Definition row_index (r : row) (i : nat) : result cell :=
  match r !! i with
  | Some value => Ok value
  | None => Raise IndexError
  end.

(** [s.startswith(prefix)] *)
Definition startswith (s prefix : pystr) : bool :=
  bool_decide (take (length prefix) s = prefix).

(** [a < b] on [str]: by code points, a proper prefix first. *)
Fixpoint str_lt (a b : pystr) : bool :=
  match a, b with
  | _, [] => false
  | [], _ :: _ => true
  | x :: a', y :: b' => (x <? y) || ((x =? y) && str_lt a' b')
  end.

(** [not (b < a)], the test a stable merge makes to keep [a] before [b]. *)
Definition str_le (a b : pystr) : Prop := str_lt b a = false.

#[global] Instance str_le_dec (a b : pystr) : Decision (str_le a b).
Proof. unfold str_le. apply _. Defined.

(** [sorted(xs)] on strings: ascending for [<]. *)
Definition sorted (xs : list pystr) : list pystr := merge_sort str_le xs.

Definition extract_size_tags_row (size_tags : gset pystr) (r : row)
    : result (gset pystr) :=
  cell_value ← row_index r 7;
  if bool_decide (cell_value ≠ CNone) then
    let tags_string := strip (str_of_cell cell_value) in
    if bool_decide (tags_string ≠ []) then
      let tags := strip <$> split_on COMMA tags_string in
      let size_tags_in_row :=
        filter (λ tag, startswith tag (u "size_") = true) tags in
      if bool_decide (size_tags_in_row ≠ []) then
        Ok (size_tags ∪ list_to_set size_tags_in_row)
      else Ok size_tags
    else Ok size_tags
  else Ok size_tags.

(** The set is walked in an order the language does not fix; [sorted] makes
    the result independent of it. *)
Definition extract_size_tags (rows : list row) : result (list pystr) :=
  size_tags ← for_each extract_size_tags_row rows ∅;
  Ok (sorted (elements size_tags)).

(** [needle in s] on [str]. *)
Fixpoint str_contains (s needle : pystr) : bool :=
  startswith s needle
  || match s with
     | [] => false
     | _ :: s' => str_contains s' needle
     end.

(** The [for term in search_terms] loop of one row, with its [break]. *)
Fixpoint search_terms_loop (search_terms : list pystr) (cell_d_value : cell)
    (cell_d_str : pystr) (r : row) (out : list row) : result (list row) :=
  match search_terms with
  | [] => Ok out
  | term :: rest =>
      if str_contains (str_lower cell_d_str) (str_lower term) then
        cell_w_value ← row_index r 22;
        Ok (out ++ [[cell_d_value; cell_w_value]])
      else search_terms_loop rest cell_d_value cell_d_str r out
  end.

Definition extract_handles_step (search_terms : list pystr) (out : list row)
    (r : row) : result (list row) :=
  cell_d_value ← row_index r 3;
  if bool_decide (cell_d_value ≠ CNone) then
    search_terms_loop search_terms cell_d_value
      (strip (str_of_cell cell_d_value)) r out
  else Ok out.

(** The data rows written to the output sheet, as (column D, column W). *)
Definition extract_handles (rows : list row) (search_terms : list pystr)
    : result (list row) :=
  for_each (extract_handles_step search_terms) rows [].

End Scripts.

(** ** An instance of the runtime for concrete evaluation

    [lower_tbl] and [nfkd_tbl] follow the Unicode data of CPython 3.11 for
    the blocks Basic Latin, Latin-1 Supplement and Letterlike Symbols
    (U+0000-U+00FF and U+2100-U+214F), one code point at a time; no code
    point of these blocks is a combining mark, so no reordering takes place.
    Other code points are left as they are, which is not what CPython does
    for all of them: the instance is only ever run on texts inside the three
    blocks. *)

Definition lower_char (c : N) : N :=
  if (65 <=? c) && (c <=? 90) then c + 32
  else if (192 <=? c) && (c <=? 222) && negb (c =? 215) then c + 32
  else if c =? 8486 then 969
  else if c =? 8490 then 107
  else if c =? 8491 then 229
  else if c =? 8498 then 8526
  else c.

Definition lower_tbl (s : pystr) : pystr := lower_char <$> s.

Definition nfkd_table : list (N * pystr) :=
  [(160, [32]); (168, [32; 776]); (170, [97]); (175, [32; 772]); (178,
   [50]); (179, [51]); (180, [32; 769]); (181, [956]); (184, [32; 807]);
   (185, [49]); (186, [111]); (188, [49; 8260; 52]); (189, [49; 8260; 50]);
   (190, [51; 8260; 52]); (192, [65; 768]); (193, [65; 769]); (194, [65;
   770]); (195, [65; 771]); (196, [65; 776]); (197, [65; 778]); (199, [67;
   807]); (200, [69; 768]); (201, [69; 769]); (202, [69; 770]); (203, [69;
   776]); (204, [73; 768]); (205, [73; 769]); (206, [73; 770]); (207, [73;
   776]); (209, [78; 771]); (210, [79; 768]); (211, [79; 769]); (212, [79;
   770]); (213, [79; 771]); (214, [79; 776]); (217, [85; 768]); (218, [85;
   769]); (219, [85; 770]); (220, [85; 776]); (221, [89; 769]); (224, [97;
   768]); (225, [97; 769]); (226, [97; 770]); (227, [97; 771]); (228, [97;
   776]); (229, [97; 778]); (231, [99; 807]); (232, [101; 768]); (233, [101;
   769]); (234, [101; 770]); (235, [101; 776]); (236, [105; 768]); (237,
   [105; 769]); (238, [105; 770]); (239, [105; 776]); (241, [110; 771]);
   (242, [111; 768]); (243, [111; 769]); (244, [111; 770]); (245, [111;
   771]); (246, [111; 776]); (249, [117; 768]); (250, [117; 769]); (251,
   [117; 770]); (252, [117; 776]); (253, [121; 769]); (255, [121; 776]);
   (8448, [97; 47; 99]); (8449, [97; 47; 115]); (8450, [67]); (8451, [176;
   67]); (8453, [99; 47; 111]); (8454, [99; 47; 117]); (8455, [400]); (8457,
   [176; 70]); (8458, [103]); (8459, [72]); (8460, [72]); (8461, [72]);
   (8462, [104]); (8463, [295]); (8464, [73]); (8465, [73]); (8466, [76]);
   (8467, [108]); (8469, [78]); (8470, [78; 111]); (8473, [80]); (8474,
   [81]); (8475, [82]); (8476, [82]); (8477, [82]); (8480, [83; 77]); (8481,
   [84; 69; 76]); (8482, [84; 77]); (8484, [90]); (8486, [937]); (8488,
   [90]); (8490, [75]); (8491, [65; 778]); (8492, [66]); (8493, [67]);
   (8495, [101]); (8496, [69]); (8497, [70]); (8499, [77]); (8500, [111]);
   (8501, [1488]); (8502, [1489]); (8503, [1490]); (8504, [1491]); (8505,
   [105]); (8507, [70; 65; 88]); (8508, [960]); (8509, [947]); (8510,
   [915]); (8511, [928]); (8512, [8721]); (8517, [68]); (8518, [100]);
   (8519, [101]); (8520, [105]); (8521, [106])].

Fixpoint assoc (table : list (N * pystr)) (c : N) : option pystr :=
  match table with
  | [] => None
  | (k, v) :: table' => if c =? k then Some v else assoc table' c
  end.

Definition nfkd_char (c : N) : pystr := default [c] (assoc nfkd_table c).

Definition nfkd_tbl (s : pystr) : pystr := concat (nfkd_char <$> s).

(** [json_loads_subset] decodes the JSON texts built from [null], [true],
    [false], integers, strings without escape sequences and arrays, with
    JSON whitespace between tokens.  It rejects every other text, objects
    and floats included; the instance is only ever run on texts of this
    subset and on texts that are not JSON at all. *)

Definition skip_ws (s : pystr) : pystr :=
  drop_while (λ c, (c =? 32) || (c =? 9) || (c =? 10) || (c =? 13)) s.

Definition is_digit (c : N) : bool := (48 <=? c) && (c <=? 57).

Fixpoint scan_string (s acc : pystr) : option (pystr * pystr) :=
  match s with
  | [] => None
  | c :: s' =>
      if c =? QUOTE then Some (reverse acc, s')
      else if (c =? BACKSLASH) || (c <? 32) then None
      else scan_string s' (c :: acc)
  end.

Fixpoint scan_digits (s : pystr) (acc : Z) : Z * pystr :=
  match s with
  | c :: s' =>
      if is_digit c then scan_digits s' (10 * acc + Z.of_N (c - 48))%Z
      else (acc, s)
  | [] => (acc, [])
  end.

Definition scan_int (s : pystr) : option (Z * pystr) :=
  match s with
  | d :: s' =>
      if negb (is_digit d) then None
      else
        let '(z, rest) := scan_digits s 0%Z in
        let leading_zero := (d =? 48) && bool_decide (rest ≠ s') in
        let float_follows :=
          match rest with
          | c :: _ => (c =? 46) || (c =? 101) || (c =? 69)
          | [] => false
          end in
        if leading_zero || float_follows then None else Some (z, rest)
  | [] => None
  end.

Fixpoint parse_value (fuel : nat) (s : pystr) : option (json * pystr) :=
  match fuel with
  | O => None
  | S fuel' =>
      let parse_items :=
        fix parse_items (n : nat) (s : pystr) : option (list json * pystr) :=
          match n with
          | O => None
          | S n' =>
              '(v, rest) ← parse_value fuel' s;
              match skip_ws rest with
              | 44 :: rest' =>
                  '(vs, rest'') ← parse_items n' rest';
                  Some (v :: vs, rest'')
              | 93 :: rest' => Some ([v], rest')
              | _ => None
              end
          end in
      match skip_ws s with
      | 110 :: 117 :: 108 :: 108 :: rest => Some (JNull, rest)
      | 116 :: 114 :: 117 :: 101 :: rest => Some (JBool true, rest)
      | 102 :: 97 :: 108 :: 115 :: 101 :: rest => Some (JBool false, rest)
      | 34 :: rest =>
          '(text, rest') ← scan_string rest [];
          Some (JStr text, rest')
      | 91 :: rest =>
          match skip_ws rest with
          | 93 :: rest' => Some (JList [], rest')
          | _ =>
              '(items, rest') ← parse_items fuel' rest;
              Some (JList items, rest')
          end
      | 45 :: rest =>
          '(z, rest') ← scan_int rest;
          Some (JInt (- z), rest')
      | rest =>
          '(z, rest') ← scan_int rest;
          Some (JInt z, rest')
      end
  end.

Definition json_loads_subset (s : pystr) : option json :=
  '(v, rest) ← parse_value (S (length s)) s;
  if bool_decide (skip_ws rest = []) then Some v else None.

Definition cpython_tbl : PyLib := {|
  str_lower := lower_tbl;
  nfkd := nfkd_tbl;
  json_loads := json_loads_subset;
|}.

(** ** Notions the statements are phrased in *)

Definition handle_of (r : row) : cell := cell_value r HANDLE_COL.
Definition gender_of (r : row) : cell := cell_value r GENDER_COL.

(** The leader tracker on its own: the membership test and the [add] of
    lines 216 and 231 of [update_gender_tags] (170 and 185 of
    [add_unisex_tags], 193-196 of [split_happy_socks]) run over a sequence
    of handle values. *)
Fixpoint first_occurrences (seen_handles : gset cell) (handles : list cell)
    : list bool :=
  match handles with
  | [] => []
  | handle_value :: rest =>
      let is_first_occurrence := bool_decide (handle_value ∉ seen_handles) in
      if is_first_occurrence
      then true :: first_occurrences ({[handle_value]} ∪ seen_handles) rest
      else false :: first_occurrences seen_handles rest
  end.

(** The number of entries of a tag list equal to [text]. *)
Fixpoint occurrences (text : pystr) (values : list json) : nat :=
  match values with
  | [] => 0
  | g :: rest => (if json_eq_str g text then 1 else 0) + occurrences text rest
  end.

(** The opposite gender as section 4.3 of the specification words it:
    Male and Female, compared as exact texts. *)
Definition opposite_exact (incoming : pystr) : option pystr :=
  if bool_decide (incoming = u "Male") then Some (u "Female")
  else if bool_decide (incoming = u "Female") then Some (u "Male")
  else None.

(** The four merge rules of section 4.3 in priority order, over a given
    notion of opposite. *)
Inductive merge_rules (opposite : pystr → option pystr)
    (current : list json) (incoming : pystr) : list json * bool → Prop :=
  | merge_present :
      JStr incoming ∈ current →
      merge_rules opposite current incoming (current, false)
  | merge_replace opp :
      JStr incoming ∉ current →
      opposite incoming = Some opp →
      JStr opp ∈ current →
      merge_rules opposite current incoming
        ((λ g, if json_eq_str g opp then JStr incoming else g) <$> current,
         true)
  | merge_unisex :
      JStr incoming ∉ current →
      (∀ opp, opposite incoming = Some opp → JStr opp ∉ current) →
      JStr (u "Unisex") ∈ current →
      merge_rules opposite current incoming
        (current ++ [JStr incoming], true)
  | merge_append :
      JStr incoming ∉ current →
      (∀ opp, opposite incoming = Some opp → JStr opp ∉ current) →
      JStr (u "Unisex") ∉ current →
      merge_rules opposite current incoming
        (current ++ [JStr incoming], true).

(** The handle column of a sheet of data rows. *)
Definition handles (out : list row) : list cell := handle_of <$> out.

(** A row whose handle already stands in an earlier row has a blank gender
    cell. *)
Definition blank_after_first (out : list row) : Prop :=
  ∀ i r, out !! i = Some r →
    handle_of r ∈ handles (take i out) → gender_of r = CNone.

(** A row whose handle stands in no earlier row has a gender cell that is
    not blank. *)
Definition carried_by_first (out : list row) : Prop :=
  ∀ i r, out !! i = Some r →
    handle_of r ∉ handles (take i out) → gender_of r ≠ CNone.

(** A row with a gender cell that is not blank comes no later than any row
    of the same handle: it is the first row of its handle. *)
Definition first_row_only (out : list row) : Prop :=
  ∀ i j ri rj, out !! i = Some ri → out !! j = Some rj →
    handle_of ri = handle_of rj → gender_of rj ≠ CNone → (j ≤ i)%nat.

(** A gender cell is blank or holds the JSON text of a list that is not
    empty. *)
Definition blank_or_encoded (value : cell) : Prop :=
  value = CNone ∨ ∃ values, values ≠ [] ∧ value = CStr (format_json_list values).

(** What the row loops of the updater and of the unisex adder maintain:
    [seen_handles] holds the handles written so far, and the gender column
    of the rows written so far is as [ok_first] and the tracker say. *)
Definition tracker_inv (need_first : bool) (st : gset cell * list row) : Prop :=
  (∀ h, h ∈ st.1 ↔ h ∈ handles st.2)
  ∧ blank_after_first st.2
  ∧ (need_first = true → carried_by_first st.2)
  ∧ Forall (λ r, blank_or_encoded (gender_of r)) st.2.

(** A sheet for the concrete evaluations: 95 columns, brand "Happy Socks",
    size tag "size_36_40", and the given handle and gender cells. *)
Definition sample_row (handle gender : cell) : row :=
  [CNone; handle; CNone; CNone; CNone; CStr (u "Happy Socks"); CNone;
   CStr (u "size_36_40")] ++ replicate 86 CNone ++ [gender].

Definition sample_sheet (rows : list row) : worksheet :=
  {| header_row := []; data_rows := rows |}.


(** The text [extract_handles_from_reference] keeps of a reference row:
    column B, stripped, unless the cell is blank or the text is empty. *)
Definition reference_handle (r : row) : option pystr :=
  match r !! 1%nat with
  | Some value =>
      if bool_decide (value ≠ CNone) then
        let handle_str := strip (str_of_cell value) in
        if bool_decide (handle_str ≠ []) then Some handle_str else None
      else None
  | None => None
  end.

(** The kept texts of a reference sheet, in file order. *)
Definition reference_handles (reference : list row) : list pystr :=
  omap reference_handle reference.


(** Texts with code points outside ASCII, and JSON texts, for the concrete
    evaluations. *)
Definition brand_tm_socks : pystr :=
  u "Brand" ++ [8482] ++ u " Socks".
Definition cafe_accent : pystr := u "Caf" ++ [233].
Definition numero_5 : pystr := [8470; 53].
Definition json_male : pystr := u "[" ++ [QUOTE] ++ u "Male" ++ [QUOTE] ++ u "]".
Definition json_female : pystr :=
  u "[" ++ [QUOTE] ++ u "Female" ++ [QUOTE] ++ u "]".

(** Four variant rows: two without a handle, then two whose handles differ
    in case only. *)
Definition sample_rows : list row :=
  [sample_row CNone (CStr json_male); sample_row CNone CNone;
   sample_row (CStr (u "Sock-A")) CNone; sample_row (CStr (u "sock-a")) CNone].

(** The same four handles with the gender cell "Male" on every row. *)
Definition sample_leader_rows : list row :=
  [sample_row CNone (CStr (u "Male")); sample_row CNone (CStr (u "Male"));
   sample_row (CStr (u "Sock-A")) (CStr (u "Male"));
   sample_row (CStr (u "sock-a")) (CStr (u "Male"))].


(** A reference sheet whose two handles normalize to the same key, and a
    master sheet with one row of that key. *)
Definition sample_reference : list row :=
  [[CNone; CStr (u "Sock-A")]; [CNone; CStr (u "sock-a")]].
Definition sample_master : list row :=
  [[CInt 1; CStr (u "SOCK-A"); CInt 3]].


(** The characters [normalize_handle] keeps, and the ones a key is meant to
    consist of: a-z, 0-9 and the hyphen. *)
Definition kept_char (c : N) : bool := isascii_alnum c || (c =? HYPHEN).

Definition key_char (c : N) : bool :=
  (48 <=? c) && (c <=? 57) || (97 <=? c) && (c <=? 122) || (c =? HYPHEN).


(** Four variant rows with the handles H1, H1, H2, H1. *)
Definition sample_H1_H1_H2_H1 : list row :=
  [sample_row (CStr (u "H1")) CNone; sample_row (CStr (u "H1")) CNone;
   sample_row (CStr (u "H2")) CNone; sample_row (CStr (u "H1")) CNone].


(** The end-to-end scenario of section 8: two rows of Sock-A with the small
    size, one row of Sock-B with the large size. *)
Definition scenario_row (handle size : pystr) : row :=
  [CNone; CStr handle; CNone; CNone; CNone; CStr (u "Happy Socks"); CNone;
   CStr size] ++ replicate 87 CNone.

Definition scenario_rows : list row :=
  [scenario_row (u "Sock-A") (u "size_36_40");
   scenario_row (u "Sock-A") (u "size_36_40");
   scenario_row (u "Sock-B") (u "size_41_46")].


(** The items of a JSON array as [json.dumps] joins them. *)
Fixpoint dumps_items (items : list json) : pystr :=
  match items with
  | [] => []
  | x :: l' =>
      match l' with
      | [] => json_dumps x
      | _ => json_dumps x ++ u ", " ++ dumps_items l'
      end
  end.


(** Three rows for the unisex adder: Sock-A with the JSON list Male, Female,
    a second row of Sock-A, and Sock-B with the bare text Male. *)
Definition json_male_female : pystr :=
  u "[" ++ [QUOTE] ++ u "Male" ++ [QUOTE] ++ u ", "
  ++ [QUOTE] ++ u "Female" ++ [QUOTE] ++ u "]".

Definition sample_unisex_rows : list row :=
  [sample_row (CStr (u "Sock-A")) (CStr json_male_female);
   sample_row (CStr (u "Sock-A")) CNone;
   sample_row (CStr (u "Sock-B")) (CStr (u "Male"))].


(** Rows for the size tag scan, with column H as the last cell; rows for the
    handle search, with column D as the fourth cell and column W as the
    last. *)
Definition size_row (tags : cell) : row := replicate 7 CNone ++ [tags].

Definition sample_size_rows : list row :=
  [size_row (CStr (u "size_41_46, size_36_40")); size_row CNone;
   size_row (CStr (u "sale, size_36_40"))].

Definition search_row (d w : cell) : row :=
  replicate 3 CNone ++ [d] ++ replicate 18 CNone ++ [w].

Definition sample_search_rows : list row :=
  [search_row (CStr (u "Happy Socks Gift Box")) (CStr (u "gift-box"));
   search_row (CStr (u "Corgi")) (CStr (u "corgi"));
   search_row CNone CNone].


Section Notions.
Context {L : PyLib}.

(** What [add_unisex_tags] writes into the gender cell of the output row for
    the input row [r]; [earlier] says whether the handle of [r] stands in an
    earlier row. *)
Definition unisex_gender_value (earlier : bool) (r : row) (g : cell) : Prop :=
  if earlier then g = CNone
  else ∃ current updated,
    parse_json_list (gender_of r) = Ok current
    ∧ add_unisex_if_complete current = Ok updated
    ∧ g = if bool_decide (updated = []) then CNone
          else CStr (format_json_list updated).

(** The output sheet of [add_unisex_tags] for the input rows [rows]: one row
    for each, in order. *)
Definition unisex_rows_written (width : nat) (rows out : list row) : Prop :=
  length out = length rows
  ∧ ∀ i r, rows !! i = Some r →
      ∃ g, out !! i = Some (copy_row width r g)
           ∧ unisex_gender_value
               (bool_decide (handle_of r ∈ handles (take i rows))) r g.

(** [text] is in [values] under the case-insensitive comparison of
    [should_add_unisex]: some entry lower-cases to [text]. *)
Definition ci_in (text : pystr) (values : list pystr) : bool :=
  existsb (λ g, bool_decide (str_lower g = text)) values.

(** Both Male and Female are present and Unisex is not. *)
Definition complete_pair (current : list pystr) : bool :=
  ci_in (u "male") current && ci_in (u "female") current
  && negb (ci_in (u "unisex") current).

(** The completion rule of section 4.3 in the specification's words. *)
Definition add_unisex_spec (current : list pystr) : list pystr :=
  if complete_pair current then current ++ [u "Unisex"] else current.


(** The selection test of [update_gender_tags]: the brand cell equals the
    brand typed in and the size label is one of the tags of the size cell. *)
Definition matches_criteria (brand_name size_label : pystr) (r : row) : bool :=
  cell_eq_str (cell_value r BRAND_COL) brand_name
  && bool_decide (size_label ∈ parse_comma_separated_tags (cell_value r SIZE_COL)).

(** An output sheet that holds one row for each of [rows], in order, each a
    copy of its row with the gender cell set to a value [value] allows;
    [value] is told whether the handle stands in an earlier row. *)
Definition rows_written (value : bool → row → cell → Prop) (width : nat)
    (rows out : list row) : Prop :=
  length out = length rows
  ∧ ∀ i r, rows !! i = Some r →
      ∃ g, out !! i = Some (copy_row width r g)
           ∧ value (bool_decide (handle_of r ∈ handles (take i rows))) r g.

(** What [update_gender_tags] writes into the gender cell of the output row
    for the matching row [r]. *)
Definition updater_gender_value (gender : pystr) (earlier : bool) (r : row)
    (g : cell) : Prop :=
  if earlier then g = CNone
  else ∃ current,
    parse_json_list (gender_of r) = Ok current
    ∧ g = CStr (format_json_list (update_gender_list current gender).1).

(** The sheet a pass leaves behind, read as the input of a next pass. *)
Definition output_sheet (ws : worksheet) (out : list row) : worksheet :=
  {| header_row := header_row ws; data_rows := out |}.


(** The sheet [split_happy_socks] sends a row to, if any: the brand must be
    Happy Socks and the size tags must name a category. *)
Definition category_of (r : row) : option category :=
  if cell_eq_str (cell_value r BRAND_COL) (u "Happy Socks")
  then (categorize_product
          (parse_comma_separated_tags (cell_value r SIZE_COL))).1
  else None.

(** The gender list of a category. *)
Definition category_genders (cat : category) : list pystr :=
  match cat with
  | female_only => [u "Female"]
  | male_only => [u "Male"]
  | unisex => [u "Female"; u "Male"; u "Unisex"]
  end.

(** What [split_happy_socks] writes into the gender cell of a row of the
    sheet [cat]. *)
Definition split_gender_value (cat : category) (earlier : bool) (r : row)
    (g : cell) : Prop :=
  g = if earlier then CNone
      else CStr (format_json_list (JStr <$> category_genders cat)).


(** [tag] is one of the size tags of row [r]: a stripped piece of its
    column H that starts with [size_]. *)
Definition size_tag_of_row (r : row) (tag : pystr) : Prop :=
  ∃ value, r !! 7%nat = Some value ∧ value ≠ CNone
    ∧ tag ∈ strip <$> split_on COMMA (strip (str_of_cell value))
    ∧ startswith tag (u "size_") = true.

(** Row [r] is selected by the search: its column D holds a value whose
    stripped text contains one of the terms, case ignored. *)
Definition is_match (search_terms : list pystr) (r : row) : bool :=
  match r !! 3%nat with
  | Some value =>
      bool_decide (value ≠ CNone)
      && existsb (λ term, str_contains
                            (str_lower (strip (str_of_cell value)))
                            (str_lower term)) search_terms
  | None => false
  end.

(** The two cells the search writes for a selected row. *)
Definition handle_pair (r : row) : row :=
  [default CNone (r !! 3%nat); default CNone (r !! 22%nat)].

End Notions.

(** * Properties *)

Section Properties.
Context {L : PyLib}.

(** ** The gender merge *)

Lemma json_eq_str_true g text : json_eq_str g text = true ↔ g = JStr text.
Proof.
  destruct g; simpl; try (split; [discriminate | discriminate]).
  rewrite bool_decide_eq_true. split; congruence.
Qed.

Lemma str_in_true text values : str_in text values = true ↔ JStr text ∈ values.
Proof.
  unfold str_in. rewrite existsb_exists. split.
  - intros (g & Hg & Heq). apply json_eq_str_true in Heq. subst g.
    by apply list_elem_of_In.
  - intros Hin. exists (JStr text). split; [by apply list_elem_of_In |].
    by apply json_eq_str_true.
Qed.

Lemma str_in_false text values : str_in text values = false ↔ JStr text ∉ values.
Proof.
  rewrite <- str_in_true. destruct (str_in text values); split; congruence.
Qed.

(** C2, as the code has it: [update_gender_list] follows the four rules with
    the opposite looked up on the lower-cased incoming value. *)
Theorem update_gender_list_rules (current : list json) (incoming : pystr) :
  merge_rules get_opposite_gender current incoming
    (update_gender_list current incoming).
Proof.
  unfold update_gender_list.
  destruct (str_in incoming current) eqn:Hin.
  { apply merge_present. by apply str_in_true. }
  apply str_in_false in Hin.
  assert (Hrest : (∀ opp, get_opposite_gender incoming = Some opp →
                          JStr opp ∉ current) →
    merge_rules get_opposite_gender current incoming
      (if str_in (u "Unisex") current
       then (current ++ [JStr incoming], true)
       else if bool_decide (current = [])
       then ([JStr incoming], true)
       else (current ++ [JStr incoming], true))).
  { intros Hopp. destruct (str_in (u "Unisex") current) eqn:Hu.
    - apply merge_unisex; [done | done | by apply str_in_true].
    - apply str_in_false in Hu. case_bool_decide as Hnil.
      + subst current. by apply (merge_append _ []).
      + by apply merge_append. }
  destruct (get_opposite_gender incoming) as [opp|] eqn:Hopp.
  - destruct (str_in opp current) eqn:Ho.
    + apply (merge_replace _ _ _ opp); [done | done | by apply str_in_true].
    + apply Hrest. intros opp' [= <-]. by apply str_in_false.
  - apply Hrest. intros opp' [=].
Qed.

Lemma occurrences_zero text values :
  occurrences text values = 0%nat ↔ JStr text ∉ values.
Proof.
  induction values as [|g values IH]; simpl.
  - split; [intros _; apply not_elem_of_nil | done].
  - rewrite not_elem_of_cons. destruct (json_eq_str g text) eqn:Hg.
    + apply json_eq_str_true in Hg. split; [discriminate | intros [? _]; done].
    + simpl. rewrite IH. split; [|tauto].
      intros Hn. split; [|done]. intros <-.
      assert (json_eq_str (JStr text) text = true) by by apply json_eq_str_true.
      congruence.
Qed.

(** C9: when rule 2 fires, every entry equal to the opposite is replaced. *)
Theorem update_gender_list_replaces_all (current : list json)
    (incoming opp : pystr) :
  JStr incoming ∉ current →
  get_opposite_gender incoming = Some opp →
  JStr opp ∈ current →
  update_gender_list current incoming =
    ((λ g, if json_eq_str g opp then JStr incoming else g) <$> current, true)
  ∧ length (update_gender_list current incoming).1 = length current
  ∧ occurrences incoming (update_gender_list current incoming).1 =
      occurrences opp current
  ∧ (1 ≤ occurrences opp current)%nat
  ∧ occurrences opp (update_gender_list current incoming).1 = 0%nat.
Proof.
  intros Hin Hopp Ho.
  assert (Hne : incoming ≠ opp) by (intros ->; done).
  assert (Heq : update_gender_list current incoming =
    ((λ g, if json_eq_str g opp then JStr incoming else g) <$> current, true)).
  { unfold update_gender_list.
    apply str_in_false in Hin. apply str_in_true in Ho.
    by rewrite Hin, Hopp, Ho. }
  rewrite Heq. simpl. split; [done |]. split; [by rewrite length_fmap |].
  split; [| split].
  - clear Heq Ho. induction current as [|g current IH]; [done |].
    apply not_elem_of_cons in Hin as [Hg Hin]. csimpl.
    rewrite (IH Hin). f_equal.
    destruct (json_eq_str g opp) eqn:Hgo.
    + assert (json_eq_str (JStr incoming) incoming = true) as ->
        by by apply json_eq_str_true.
      done.
    + destruct (json_eq_str g incoming) eqn:Hgi; [|done].
      apply json_eq_str_true in Hgi. congruence.
  - destruct (occurrences opp current) eqn:Hz; [| lia].
    apply occurrences_zero in Hz. done.
  - apply occurrences_zero. intros Hmem.
    apply list_elem_of_fmap in Hmem as (g & Hg & _).
    destruct (json_eq_str g opp) eqn:Hgo.
    + congruence.
    + subst g. assert (json_eq_str (JStr opp) opp = true)
        by by apply json_eq_str_true.
      congruence.
Qed.

(** ** Rows and loops *)

Lemma cell_value_copy_row width r g column :
  (1 ≤ column)%nat →
  cell_value (copy_row width r g) column =
    if bool_decide (column ≤ width)%nat
    then (if bool_decide (column = GENDER_COL) then g else cell_value r column)
    else CNone.
Proof.
  intros Hc. unfold cell_value at 1, copy_row. rewrite list_lookup_fmap.
  case_bool_decide.
  - rewrite lookup_seq_lt by lia. simpl.
    replace (S (pred column)) with column by lia. done.
  - rewrite lookup_seq_ge by lia. done.
Qed.

Lemma handle_of_copy_row width r g :
  (HANDLE_COL ≤ width)%nat → handle_of (copy_row width r g) = handle_of r.
Proof.
  intros Hw. unfold handle_of.
  rewrite cell_value_copy_row by (unfold HANDLE_COL; lia).
  rewrite bool_decide_eq_true_2 by done. done.
Qed.

Lemma gender_of_copy_row width r g :
  gender_of (copy_row width r g) =
    if bool_decide (GENDER_COL ≤ width)%nat then g else CNone.
Proof.
  unfold gender_of.
  rewrite cell_value_copy_row by (unfold GENDER_COL; lia).
  case_bool_decide; [|done]. by rewrite bool_decide_eq_true_2.
Qed.

Lemma max_column_ge ws touched : (touched ≤ max_column ws touched)%nat.
Proof. unfold max_column. lia. Qed.

Lemma for_each_total {S X} (step : S → X → result S) (P : S → Prop) xs st :
  P st →
  (∀ st x, P st → ∃ st', step st x = Ok st' ∧ P st') →
  ∃ st', for_each step xs st = Ok st' ∧ P st'.
Proof.
  intros Hst Hstep. revert st Hst.
  induction xs as [|x xs IH]; intros st Hst; simpl.
  - by exists st.
  - destruct (Hstep st x Hst) as (st1 & -> & Hst1). simpl. by apply IH.
Qed.

Lemma for_each_inv {S X} (step : S → X → result S) (P : S → Prop) xs st st' :
  P st →
  (∀ st x st', P st → step st x = Ok st' → P st') →
  for_each step xs st = Ok st' → P st'.
Proof.
  intros Hst Hstep. revert st Hst.
  induction xs as [|x xs IH]; intros st Hst; simpl.
  - by intros [= <-].
  - destruct (step st x) as [st1|e] eqn:Hs; simpl; [|done].
    apply IH. by eapply Hstep.
Qed.

(** ** The leader tracker *)

Lemma handles_snoc out r : handles (out ++ [r]) = handles out ++ [handle_of r].
Proof. unfold handles. by rewrite fmap_app. Qed.

Lemma blank_after_first_nil : blank_after_first [].
Proof. intros i r Hl. by rewrite lookup_nil in Hl. Qed.

Lemma carried_by_first_nil : carried_by_first [].
Proof. intros i r Hl. by rewrite lookup_nil in Hl. Qed.

Lemma blank_after_first_snoc out r :
  blank_after_first out →
  (handle_of r ∈ handles out → gender_of r = CNone) →
  blank_after_first (out ++ [r]).
Proof.
  intros Hout Hr i r' Hl Hin.
  apply lookup_snoc_Some in Hl as [[Hi Hl] | [-> <-]].
  - rewrite take_app_le in Hin by lia. by eapply Hout.
  - rewrite take_app_length in Hin. by apply Hr.
Qed.

Lemma carried_by_first_snoc out r :
  carried_by_first out →
  (handle_of r ∉ handles out → gender_of r ≠ CNone) →
  carried_by_first (out ++ [r]).
Proof.
  intros Hout Hr i r' Hl Hin.
  apply lookup_snoc_Some in Hl as [[Hi Hl] | [-> <-]].
  - rewrite take_app_le in Hin by lia. by eapply Hout.
  - rewrite take_app_length in Hin. by apply Hr.
Qed.

Lemma blank_after_first_first_row_only out :
  blank_after_first out → first_row_only out.
Proof.
  intros Hout i j ri rj Hi Hj Hh Hg.
  destruct (decide (j ≤ i)%nat) as [|Hlt]; [done|].
  exfalso. apply Hg. apply (Hout j rj Hj).
  rewrite <- Hh. unfold handles. apply list_elem_of_fmap.
  exists ri. split; [done|]. apply list_elem_of_lookup. exists i.
  rewrite lookup_take_lt by lia. done.
Qed.

Lemma tracker_inv_init need_first : tracker_inv need_first (∅, []).
Proof.
  split; [|split; [|split]]; simpl.
  - intros h. unfold handles. simpl. set_solver.
  - apply blank_after_first_nil.
  - intros _. apply carried_by_first_nil.
  - constructor.
Qed.

Lemma tracker_inv_snoc need_first seen out width r g :
  (HANDLE_COL ≤ width)%nat →
  tracker_inv need_first (seen, out) →
  blank_or_encoded g →
  (handle_of r ∈ seen → g = CNone) →
  (need_first = true → handle_of r ∉ seen →
     (GENDER_COL ≤ width)%nat ∧ g ≠ CNone) →
  tracker_inv need_first ({[handle_of r]} ∪ seen, out ++ [copy_row width r g]).
Proof.
  intros Hw (Hseen & Hblank & Hfirst & Henc) Hg Hin Hout. simpl in *.
  split; [|split; [|split]]; simpl.
  - intros h. rewrite handles_snoc, handle_of_copy_row by done.
    rewrite elem_of_app, list_elem_of_singleton, <- Hseen.
    rewrite elem_of_union, elem_of_singleton. tauto.
  - apply blank_after_first_snoc; [done|].
    rewrite handle_of_copy_row, gender_of_copy_row by done.
    intros Hh. apply Hseen in Hh. rewrite (Hin Hh). by case_bool_decide.
  - intros Hn. apply carried_by_first_snoc; [by apply Hfirst|].
    rewrite handle_of_copy_row, gender_of_copy_row by done.
    intros Hh. destruct (Hout Hn) as [Hge Hne]; [by rewrite Hseen|].
    by rewrite bool_decide_eq_true_2.
  - apply Forall_app. split; [done|]. constructor; [|constructor].
    rewrite gender_of_copy_row. case_bool_decide; [done|]. by left.
Qed.

(** ** Decoding a tag cell *)

Lemma parse_json_list_total (value : cell) :
  ∃ items, parse_json_list value = Ok items.
Proof.
  unfold parse_json_list.
  destruct (bool_decide (value = CNone) || cell_eq_str value []); [by eexists|].
  unfold try_except, json_loads_cell.
  destruct value as [|s|z]; simpl; try by eexists.
  destruct (json_loads s) as [parsed|]; simpl; [|by eexists].
  destruct parsed; by eexists.
Qed.

Lemma update_gender_list_nonempty current incoming :
  (update_gender_list current incoming).1 ≠ [].
Proof.
  unfold update_gender_list.
  destruct (str_in incoming current) eqn:Hin; simpl.
  { apply str_in_true in Hin. intros ->. by apply elem_of_nil in Hin. }
  assert (Hrest :
    (if str_in (u "Unisex") current
     then (current ++ [JStr incoming], true)
     else if bool_decide (current = [])
     then ([JStr incoming], true)
     else (current ++ [JStr incoming], true)).1 ≠ []).
  { repeat case_match; simpl; try done; by destruct current. }
  destruct (get_opposite_gender incoming) as [opp|]; [|done].
  destruct (str_in opp current) eqn:Ho; [|done]. simpl.
  apply str_in_true in Ho. intros Hnil. apply fmap_nil_inv in Hnil.
  subst current. by apply elem_of_nil in Ho.
Qed.

(** ** The updater's row loop *)

Lemma update_gender_tags_row_inv brand_name size_label gender width st r :
  (GENDER_COL ≤ width)%nat →
  tracker_inv true st →
  ∃ st', update_gender_tags_row brand_name size_label gender width st r = Ok st'
         ∧ tracker_inv true st'.
Proof.
  intros Hw Hinv. destruct st as [seen out].
  assert (Hw2 : (HANDLE_COL ≤ width)%nat) by (unfold HANDLE_COL, GENDER_COL in *; lia).
  unfold update_gender_tags_row.
  destruct (cell_eq_str _ _ && _); [|by eexists].
  fold (handle_of r). case_bool_decide as Hfirst.
  - destruct (parse_json_list_total (cell_value r GENDER_COL)) as [items ->].
    simpl.
    pose proof (update_gender_list_nonempty items gender) as Hne.
    destruct (update_gender_list items gender) as [updated changed].
    eexists. split; [done|].
    apply tracker_inv_snoc; try done. right. by eexists.
  - eexists. split; [done|].
    replace seen with ({[handle_of r]} ∪ seen) at 1 by set_solver.
    apply tracker_inv_snoc; try done. by left.
Qed.

Lemma update_gender_tags_inv brand_name size_label gender ws :
  ∃ out, update_gender_tags brand_name size_label gender ws = Ok out
         ∧ blank_after_first out ∧ carried_by_first out
         ∧ Forall (λ r, blank_or_encoded (gender_of r)) out.
Proof.
  unfold update_gender_tags.
  destruct (for_each_total
    (update_gender_tags_row brand_name size_label gender
       (max_column ws GENDER_COL))
    (tracker_inv true) (data_rows ws) (∅, [])) as (st & -> & Hst).
  - apply tracker_inv_init.
  - intros st r Hst. apply update_gender_tags_row_inv; [|done].
    apply max_column_ge.
  - exists st.2. destruct Hst as (_ & Hb & Hf & He). simpl. auto.
Qed.

(** ** The three-way split *)

Lemma split_happy_socks_row_inv width st r :
  (HANDLE_COL ≤ width)%nat →
  (∀ cat, tracker_inv false (split_seen st cat, split_output st cat)) →
  ∀ cat, tracker_inv false
           (split_seen (split_happy_socks_row width st r) cat,
            split_output (split_happy_socks_row width st r) cat).
Proof.
  intros Hw Hinv cat. unfold split_happy_socks_row.
  destruct (negb _); [done|].
  destruct (categorize_product _) as [[c|] gender_list] eqn:Hcat; [|done].
  assert (Hne : JStr <$> gender_list ≠ []).
  { unfold categorize_product in Hcat.
    repeat case_match; by simplify_eq. }
  fold (handle_of r). simpl.
  destruct (decide (c = cat)) as [->|Hc].
  - rewrite fn_lookup_insert. case_bool_decide as Hfirst.
    + rewrite fn_lookup_insert.
      apply tracker_inv_snoc; try done.
      right. by exists (JStr <$> gender_list).
    + replace (split_seen st cat)
        with ({[handle_of r]} ∪ split_seen st cat) at 1 by set_solver.
      apply tracker_inv_snoc; try done. by left.
  - rewrite fn_lookup_insert_ne by done.
    case_bool_decide; [rewrite fn_lookup_insert_ne by done|]; done.
Qed.

Lemma split_happy_socks_inv ws cat :
  blank_after_first (split_happy_socks ws cat).
Proof.
  unfold split_happy_socks.
  assert (Hw : (HANDLE_COL ≤ max_column ws SIZE_COL)%nat).
  { pose proof (max_column_ge ws SIZE_COL). unfold HANDLE_COL, SIZE_COL in *. lia. }
  cut (∀ rows st,
    (∀ cat, tracker_inv false (split_seen st cat, split_output st cat)) →
    ∀ cat, tracker_inv false
      (split_seen (foldl (split_happy_socks_row (max_column ws SIZE_COL)) st rows) cat,
       split_output (foldl (split_happy_socks_row (max_column ws SIZE_COL)) st rows) cat)).
  { intros Hcut. eapply (Hcut (data_rows ws) _ _ cat). }
  induction rows as [|r rows IH]; intros st Hst; [done|].
  simpl. apply IH. by apply split_happy_socks_row_inv.
  Unshelve. intros c. apply tracker_inv_init.
Qed.

(** ** The unisex adder's row loop *)

Lemma for_each_prefix_inv {S X} (step : S → X → result S)
    (P : list X → S → Prop) xs st st' :
  P [] st →
  (∀ pre x st st', P pre st → step st x = Ok st' → P (pre ++ [x]) st') →
  for_each step xs st = Ok st' → P xs st'.
Proof.
  intros Hst Hstep.
  cut (∀ pre st, P pre st → for_each step xs st = Ok st' → P (pre ++ xs) st').
  { intros Hcut. by apply (Hcut []). }
  induction xs as [|x xs IH]; intros pre st0 Hpre; simpl.
  - intros [= <-]. by rewrite app_nil_r.
  - destruct (step st0 x) as [st1|e] eqn:Hs; simpl; [|done].
    intros Hrest. rewrite cons_middle, app_assoc.
    apply (IH _ st1); [|done]. by eapply Hstep.
Qed.

Lemma unisex_rows_written_handles width rows out :
  (HANDLE_COL ≤ width)%nat →
  unisex_rows_written width rows out → handles out = handles rows.
Proof.
  intros Hw [Hlen Hrows]. unfold handles.
  apply list_eq. intros i. rewrite !list_lookup_fmap.
  destruct (rows !! i) as [r|] eqn:Hr.
  - destruct (Hrows i r Hr) as (g & -> & _). simpl.
    by rewrite handle_of_copy_row.
  - apply lookup_ge_None in Hr. rewrite lookup_ge_None_2 by lia. done.
Qed.

Lemma unisex_rows_written_snoc width rows out r g :
  unisex_rows_written width rows out →
  unisex_gender_value (bool_decide (handle_of r ∈ handles rows)) r g →
  unisex_rows_written width (rows ++ [r]) (out ++ [copy_row width r g]).
Proof.
  intros [Hlen Hrows] Hg. split.
  - rewrite !length_app. simpl. lia.
  - intros i r' Hl.
    apply lookup_snoc_Some in Hl as [[Hi Hl] | [-> <-]].
    + destruct (Hrows i r' Hl) as (g' & Hout & Hg').
      exists g'. rewrite lookup_app_l by lia. split; [done|].
      by rewrite take_app_le by lia.
    + exists g. rewrite <- Hlen, list_lookup_middle by done. split; [done|].
      by rewrite Hlen, take_app_length.
Qed.

Lemma add_unisex_tags_row_written width rows st r st' :
  (HANDLE_COL ≤ width)%nat →
  (∀ h, h ∈ st.1 ↔ h ∈ handles rows) → unisex_rows_written width rows st.2 →
  add_unisex_tags_row width st r = Ok st' →
  (∀ h, h ∈ st'.1 ↔ h ∈ handles (rows ++ [r]))
  ∧ unisex_rows_written width (rows ++ [r]) st'.2.
Proof.
  intros Hw Hseen Hrows. destruct st as [seen out]. simpl in *.
  unfold add_unisex_tags_row. fold (handle_of r). fold (gender_of r).
  assert (Hs : ∀ h, h ∈ {[handle_of r]} ∪ seen ↔ h ∈ handles (rows ++ [r])).
  { intros h. rewrite handles_snoc, elem_of_app, list_elem_of_singleton.
    rewrite elem_of_union, elem_of_singleton, Hseen. tauto. }
  case_bool_decide as Hfirst.
  - destruct (parse_json_list (gender_of r)) as [current|] eqn:Hp; [|done].
    simpl.
    destruct (add_unisex_if_complete current) as [updated|] eqn:Ha; [|done].
    simpl. intros [= <-]. simpl. split; [done|].
    apply unisex_rows_written_snoc; [done|].
    rewrite bool_decide_eq_false_2 by by rewrite <- Hseen.
    by exists current, updated.
  - intros [= <-]. simpl. split.
    + intros h. rewrite <- Hs. set_solver.
    + apply unisex_rows_written_snoc; [done|].
      rewrite bool_decide_eq_true_2 by by rewrite <- Hseen. done.
Qed.

Lemma add_unisex_tags_written ws out :
  add_unisex_tags ws = Ok out →
  unisex_rows_written (max_column ws GENDER_COL) (data_rows ws) out.
Proof.
  unfold add_unisex_tags.
  destruct (for_each _ _ _) as [st|e] eqn:Hloop; simpl; [|done].
  intros [= <-].
  assert (Hw : (HANDLE_COL ≤ max_column ws GENDER_COL)%nat).
  { pose proof (max_column_ge ws GENDER_COL).
    unfold HANDLE_COL, GENDER_COL in *. lia. }
  apply (for_each_prefix_inv _
    (λ rows st, (∀ h, h ∈ st.1 ↔ h ∈ handles rows)
                ∧ unisex_rows_written (max_column ws GENDER_COL) rows st.2))
    in Hloop; [by destruct Hloop | |].
  - simpl. split; [set_solver|]. split; [done|].
    intros i r Hl. by rewrite lookup_nil in Hl.
  - intros pre x st0 st1 [Hseen Hrows] Hstep.
    by eapply add_unisex_tags_row_written.
Qed.

Lemma add_unisex_tags_blank_after_first ws out :
  add_unisex_tags ws = Ok out → blank_after_first out.
Proof.
  intros Hout. apply add_unisex_tags_written in Hout.
  assert (Hw : (HANDLE_COL ≤ max_column ws GENDER_COL)%nat).
  { pose proof (max_column_ge ws GENDER_COL).
    unfold HANDLE_COL, GENDER_COL in *. lia. }
  pose proof (unisex_rows_written_handles _ _ _ Hw Hout) as Hh.
  destruct Hout as [Hlen Hrows].
  intros i r Hl Hin.
  destruct (data_rows ws !! i) as [r_in|] eqn:Hr.
  - destruct (Hrows i r_in Hr) as (g & Hout & Hg).
    rewrite Hl in Hout. injection Hout as ->.
    rewrite handle_of_copy_row in Hin by done.
    assert (Ht : handles (take i out) = handles (take i (data_rows ws))).
    { unfold handles in *. by rewrite !fmap_take, Hh. }
    rewrite Ht in Hin. rewrite bool_decide_eq_true_2 in Hg by done.
    simpl in Hg. subst g. rewrite gender_of_copy_row. by case_bool_decide.
  - apply lookup_ge_None in Hr. apply lookup_lt_Some in Hl. lia.
Qed.

(** ** The leader tracker on a sequence of handles *)

Lemma first_occurrences_lookup seen hs i h :
  hs !! i = Some h →
  first_occurrences seen hs !! i =
    Some (bool_decide ((h ∉ seen) ∧ (h ∉ take i hs))).
Proof.
  revert seen i. induction hs as [|h0 hs IH]; intros seen i Hl; [done|].
  destruct i as [|i]; simpl in *.
  - injection Hl as ->. case_bool_decide as Hs; simpl; f_equal; symmetry.
    + apply bool_decide_eq_true_2. split; [done|]. apply not_elem_of_nil.
    + apply bool_decide_eq_false_2. tauto.
  - case_bool_decide as Hs; simpl; rewrite (IH _ _ Hl); f_equal;
      apply bool_decide_ext; rewrite not_elem_of_cons.
    + rewrite not_elem_of_union, not_elem_of_singleton. tauto.
    + split; [|tauto]. intros [Hh Ht]. split; [done|].
      split; [|done]. intros ->. done.
Qed.

Lemma length_first_occurrences seen hs :
  length (first_occurrences seen hs) = length hs.
Proof.
  revert seen. induction hs as [|h hs IH]; intros seen; [done|].
  simpl. case_bool_decide; simpl; by rewrite IH.
Qed.

(** The rows of the updater's output that carry a gender value are the rows
    the tracker reports as first occurrences. *)
Lemma update_gender_tags_leaders brand_name size_label gender ws :
  ∃ out, update_gender_tags brand_name size_label gender ws = Ok out
    ∧ (λ r, bool_decide (gender_of r ≠ CNone)) <$> out
      = first_occurrences ∅ (handles out).
Proof.
  destruct (update_gender_tags_inv brand_name size_label gender ws)
    as (out & Hout & Hblank & Hfirst & _).
  exists out. split; [done|]. apply list_eq. intros i.
  rewrite list_lookup_fmap. destruct (out !! i) as [r|] eqn:Hr; simpl.
  - assert (Hh : handles out !! i = Some (handle_of r)).
    { unfold handles. by rewrite list_lookup_fmap, Hr. }
    rewrite (first_occurrences_lookup _ _ _ _ Hh). f_equal.
    apply bool_decide_ext.
    assert (Ht : take i (handles out) = handles (take i out)).
    { unfold handles. by rewrite fmap_take. }
    rewrite Ht. split.
    + intros Hg. split; [set_solver|]. intros Hin. by apply Hg, (Hblank i).
    + intros [_ Hn]. by apply (Hfirst i).
  - symmetry. apply lookup_ge_None. rewrite length_first_occurrences.
    unfold handles. rewrite length_fmap. by apply lookup_ge_None.
Qed.

(** C3, as the code has it: on the handle sequence H1, H1, H2, H1 a fresh
    tracker answers true, false, true, false: H2 is seen for the first time
    at the third position.  So does the updater: when the rows it writes
    have these handles, the first and the third carry a gender value and the
    second and the fourth are blank. *)
Theorem first_occurrences_H1_H1_H2_H1 (H1 H2 : cell)
    (brand_name size_label gender : pystr) (ws : worksheet) :
  H1 ≠ H2 →
  first_occurrences ∅ [H1; H1; H2; H1] = [true; false; true; false]
  ∧ ∃ out, update_gender_tags brand_name size_label gender ws = Ok out
      ∧ (handles out = [H1; H1; H2; H1] →
         (λ r, bool_decide (gender_of r ≠ CNone)) <$> out
           = [true; false; true; false]).
Proof.
  intros Hne.
  assert (Hseq : first_occurrences ∅ [H1; H1; H2; H1]
                 = [true; false; true; false]).
  { simpl.
    rewrite (bool_decide_eq_true_2 (H1 ∉ ∅)) by set_solver.
    rewrite (bool_decide_eq_false_2 (H1 ∉ {[H1]} ∪ ∅)) by set_solver.
    rewrite (bool_decide_eq_true_2 (H2 ∉ {[H1]} ∪ ∅)) by set_solver.
    rewrite (bool_decide_eq_false_2 (H1 ∉ {[H2]} ∪ ({[H1]} ∪ ∅)))
      by set_solver.
    done. }
  split; [exact Hseq|].
  destruct (update_gender_tags_leaders brand_name size_label gender ws)
    as (out & Hout & Hflags).
  exists out. split; [done|]. intros Hh. by rewrite Hflags, Hh.
Qed.

(** C1: in the output sheet of the updater, in each of the three output
    sheets of the splitter and in the output sheet of the unisex adder, a row
    whose gender cell is not blank is the first row of its handle; so at most
    one row of a handle carries a value, and every later row of that handle
    is blank. *)
Theorem gender_on_first_row_only brand_name size_label gender ws :
  (∃ out, update_gender_tags brand_name size_label gender ws = Ok out
          ∧ first_row_only out)
  ∧ (∀ cat, first_row_only (split_happy_socks ws cat))
  ∧ match add_unisex_tags ws with
    | Ok out => first_row_only out
    | Raise _ => True
    end.
Proof.
  split; [|split].
  - destruct (update_gender_tags_inv brand_name size_label gender ws)
      as (out & Hout & Hblank & _).
    exists out. split; [done|]. by apply blank_after_first_first_row_only.
  - intros cat. apply blank_after_first_first_row_only, split_happy_socks_inv.
  - destruct (add_unisex_tags ws) as [out|] eqn:Hout; [|done].
    by eapply blank_after_first_first_row_only,
      add_unisex_tags_blank_after_first.
Qed.

Lemma first_row_only_unique out i j ri rj :
  first_row_only out →
  out !! i = Some ri → out !! j = Some rj → handle_of ri = handle_of rj →
  gender_of ri ≠ CNone → gender_of rj ≠ CNone → i = j.
Proof.
  intros Hout Hi Hj Hh Hgi Hgj.
  pose proof (Hout i j ri rj Hi Hj Hh Hgj).
  pose proof (Hout j i rj ri Hj Hi (eq_sym Hh) Hgi). lia.
Qed.

Lemma add_unisex_if_complete_nil current updated :
  add_unisex_if_complete current = Ok updated → (updated = [] ↔ current = []).
Proof.
  unfold add_unisex_if_complete.
  destruct current as [|g current].
  - simpl. intros [= <-]. done.
  - destruct (should_add_unisex (g :: current)) as [[|]|e]; simpl; [| |done].
    + intros [= <-]. split; [by destruct current | done].
    + intros [= <-]. done.
Qed.

(** C10: the tracker compares handle cells as they are read, [None]
    included, in both passes.  In the updater's output a gender cell is blank
    exactly when the very same handle value stands in an earlier row.  The
    unisex adder keeps the handle column, and in its output a gender cell is
    blank exactly when the very same handle value stands in an earlier row
    or the gender cell it read decodes to the empty list: so a row whose
    handle value differs from every earlier one, if only in case or
    decoration, leads a group of its own, and rows without a handle form one
    group. *)
Theorem leader_keyed_on_raw_handle brand_name size_label gender ws :
  (∃ out, update_gender_tags brand_name size_label gender ws = Ok out
     ∧ ∀ i r, out !! i = Some r →
         (gender_of r = CNone ↔ handle_of r ∈ handles (take i out)))
  ∧ (∀ out, add_unisex_tags ws = Ok out →
       handles out = handles (data_rows ws)
       ∧ ∀ i r, out !! i = Some r →
           (gender_of r = CNone
            ↔ handle_of r ∈ handles (take i out)
              ∨ ∃ r0, data_rows ws !! i = Some r0
                  ∧ parse_json_list (gender_of r0) = Ok [])).
Proof.
  split.
  - destruct (update_gender_tags_inv brand_name size_label gender ws)
      as (out & Hout & Hblank & Hfirst & _).
    exists out. split; [done|]. intros i r Hr. split.
    + intros Hg. destruct (decide (handle_of r ∈ handles (take i out)))
        as [|Hn]; [done|].
      by destruct (Hfirst i r Hr Hn).
    + by apply Hblank.
  - intros out Hout.
    pose proof (add_unisex_tags_blank_after_first _ _ Hout) as Hblank.
    apply add_unisex_tags_written in Hout.
    assert (Hw : (HANDLE_COL ≤ max_column ws GENDER_COL)%nat).
    { pose proof (max_column_ge ws GENDER_COL).
      unfold HANDLE_COL, GENDER_COL in *. lia. }
    assert (Hg95 : (GENDER_COL ≤ max_column ws GENDER_COL)%nat)
      by apply max_column_ge.
    pose proof (unisex_rows_written_handles _ _ _ Hw Hout) as Hh.
    split; [done|]. destruct Hout as [Hlen Hrows]. intros i r Hr.
    assert (Ht : handles (take i out) = handles (take i (data_rows ws))).
    { unfold handles in *. by rewrite !fmap_take, Hh. }
    destruct (data_rows ws !! i) as [r0|] eqn:Hr0.
    2: { apply lookup_ge_None in Hr0. apply lookup_lt_Some in Hr. lia. }
    destruct (Hrows i r0 Hr0) as (g & Hi & Hg).
    rewrite Hr in Hi. injection Hi as ->.
    rewrite handle_of_copy_row by done.
    rewrite gender_of_copy_row, (bool_decide_eq_true_2 _ Hg95).
    rewrite Ht.
    destruct (decide (handle_of r0 ∈ handles (take i (data_rows ws))))
      as [Hin|Hin].
    + rewrite (bool_decide_eq_true_2 _ Hin) in Hg. simpl in Hg. subst g.
      split; [by left | done].
    + rewrite (bool_decide_eq_false_2 _ Hin) in Hg. simpl in Hg.
      destruct Hg as (current & updated & Hp & Hu & ->).
      pose proof (add_unisex_if_complete_nil _ _ Hu) as Hnil.
      split.
      * intros Hg. right. exists r0. split; [done|].
        case_bool_decide as Hu0; [|done].
        apply Hnil in Hu0. by subst current.
      * intros [Hin'|(r1 & [= <-] & Hp')]; [done|].
        rewrite Hp in Hp'. injection Hp' as ->.
        rewrite bool_decide_eq_true_2; [done|]. by apply Hnil.
Qed.

(** ** Unisex completion *)

Lemma any_lower_eq_strs text (current : list pystr) :
  any_lower_eq text (JStr <$> current) = Ok (ci_in text current).
Proof.
  induction current as [|g current IH]; [done|].
  csimpl. case_bool_decide; [done|]. by rewrite IH.
Qed.

Lemma complete_pair_short (current : list pystr) :
  (length current < 2)%nat → complete_pair current = false.
Proof.
  intros Hlen. unfold complete_pair, ci_in.
  destruct current as [|g [|g' current]]; simpl in *; [done| |lia].
  rewrite !orb_false_r.
  case_bool_decide as Hm; [|done]. case_bool_decide as Hf; [|done].
  rewrite Hm in Hf. by vm_compute in Hf.
Qed.

Lemma should_add_unisex_strs (current : list pystr) :
  should_add_unisex (JStr <$> current) = Ok (complete_pair current).
Proof.
  unfold should_add_unisex. rewrite length_fmap.
  destruct (decide (length current < 2)%nat) as [Hlen|Hlen].
  - rewrite (bool_decide_eq_true_2 _ Hlen), orb_true_r.
    by rewrite complete_pair_short.
  - rewrite (bool_decide_eq_false_2 _ Hlen), orb_false_r.
    rewrite bool_decide_eq_false_2
      by (intros Hnil; apply fmap_nil_inv in Hnil; subst; simpl in *; lia).
    by rewrite !any_lower_eq_strs.
Qed.

Lemma ci_in_app text l1 l2 : ci_in text (l1 ++ l2) = ci_in text l1 || ci_in text l2.
Proof. unfold ci_in. apply existsb_app. Qed.

(** C7: on a list of tags, [add_unisex_if_complete] appends "Unisex" exactly
    when the list holds Male and Female and no Unisex, all compared after
    lower-casing, and returns the list as it is otherwise; a second
    application changes nothing, so the existing entries keep their places
    and "Unisex" is appended at most once. *)
Theorem add_unisex_if_complete_spec (current : list pystr) :
  str_lower (u "Unisex") = u "unisex" →
  should_add_unisex (JStr <$> current) = Ok (complete_pair current)
  ∧ add_unisex_if_complete (JStr <$> current)
    = Ok (JStr <$> add_unisex_spec current)
  ∧ add_unisex_if_complete (JStr <$> add_unisex_spec current)
    = Ok (JStr <$> add_unisex_spec current)
  ∧ ∀ n, Nat.iter (S n) add_unisex_spec current = add_unisex_spec current.
Proof.
  intros Hlower.
  assert (Hcode : ∀ l, add_unisex_if_complete (JStr <$> l)
                       = Ok (JStr <$> add_unisex_spec l)).
  { intros l. unfold add_unisex_if_complete, add_unisex_spec.
    rewrite should_add_unisex_strs. simpl.
    destruct (complete_pair l); [|done]. by rewrite fmap_app. }
  assert (Hidem : add_unisex_spec (add_unisex_spec current)
                  = add_unisex_spec current).
  { assert (Hdone : complete_pair (current ++ [u "Unisex"]) = false).
    { unfold complete_pair. rewrite !ci_in_app.
      assert (ci_in (u "unisex") [u "Unisex"] = true) as ->.
      { unfold ci_in. simpl. by rewrite bool_decide_eq_true_2. }
      by rewrite orb_true_r, andb_false_r. }
    unfold add_unisex_spec.
    destruct (complete_pair current) eqn:Hc; [by rewrite Hdone|].
    by rewrite Hc. }
  split; [apply should_add_unisex_strs|].
  split; [apply Hcode|]. split; [by rewrite Hcode, Hidem|].
  induction n as [|n IH]; [done|].
  change (Nat.iter (S (S n)) add_unisex_spec current)
    with (add_unisex_spec (Nat.iter (S n) add_unisex_spec current)).
  by rewrite IH.
Qed.

(** ** Encoding the gender cell *)

Lemma format_json_list_brackets values :
  ∃ body, format_json_list values = u "[" ++ body ++ u "]".
Proof. unfold format_json_list. simpl. by eexists. Qed.

(** C8, as the code has it: a tag list written to a gender cell is written
    as JSON array text, and the encoder turns the empty list into "[]".  The
    updater writes such a text on every first row of a handle, and its list
    is never empty.  The unisex adder writes a blank, not "[]", on a first
    row whose list is empty; later rows of a handle are blank in both. *)
Theorem gender_cell_encoding brand_name size_label gender ws :
  format_json_list [] = u "[]"
  ∧ (∀ values, ∃ body, format_json_list values = u "[" ++ body ++ u "]")
  ∧ (∃ out, update_gender_tags brand_name size_label gender ws = Ok out
       ∧ ∀ i r, out !! i = Some r →
           if bool_decide (handle_of r ∈ handles (take i out))
           then gender_of r = CNone
           else ∃ values, values ≠ []
                  ∧ gender_of r = CStr (format_json_list values))
  ∧ (∀ out, add_unisex_tags ws = Ok out →
       ∀ i r, data_rows ws !! i = Some r →
         ∃ r', out !! i = Some r' ∧ handle_of r' = handle_of r
           ∧ unisex_gender_value
               (bool_decide (handle_of r ∈ handles (take i (data_rows ws))))
               r (gender_of r')).
Proof.
  split; [done|]. split; [apply format_json_list_brackets|]. split.
  - destruct (update_gender_tags_inv brand_name size_label gender ws)
      as (out & Hout & Hblank & Hfirst & Henc).
    exists out. split; [done|]. intros i r Hr.
    case_bool_decide as Hin; [by apply (Hblank i)|].
    rewrite Forall_lookup in Henc.
    destruct (Henc i r Hr) as [Hnone | Hvals]; [|done].
    by destruct (Hfirst i r Hr Hin).
  - intros out Hout. apply add_unisex_tags_written in Hout.
    destruct Hout as [_ Hrows]. intros i r Hr.
    destruct (Hrows i r Hr) as (g & Hl & Hg).
    pose proof (max_column_ge ws GENDER_COL) as Hw.
    eexists. split; [done|]. split.
    + apply handle_of_copy_row. unfold HANDLE_COL, GENDER_COL in *. lia.
    + rewrite gender_of_copy_row. by rewrite (bool_decide_eq_true_2 _ Hw).
Qed.

(** ** Handle matching *)

Lemma extract_handles_row_spec pre st r st' :
  (∀ key, key ∈ st.1 ↔ is_Some (st.2 !! key)) →
  (∀ key, st.2 !! key =
     last (filter (λ s, normalize_handle (CStr s) = key)
             (reference_handles pre))) →
  extract_handles_row st r = Ok st' →
  (∀ key, key ∈ st'.1 ↔ is_Some (st'.2 !! key))
  ∧ (∀ key, st'.2 !! key =
       last (filter (λ s, normalize_handle (CStr s) = key)
               (reference_handles (pre ++ [r])))).
Proof.
  intros Hdom Hlast. destruct st as [hs m]. simpl in *.
  unfold extract_handles_row, column_b, reference_handles.
  rewrite omap_app. simpl. unfold reference_handle at 2.
  destruct (r !! 1%nat) as [value|]; simpl; [|done].
  case_bool_decide as Hv; simpl.
  2: { intros [= <-]. simpl. by rewrite app_nil_r. }
  case_bool_decide as Hs; simpl.
  2: { intros [= <-]. simpl. by rewrite app_nil_r. }
  intros [= <-]. simpl. split.
  - intros key. rewrite elem_of_union, elem_of_singleton, Hdom.
    destruct (decide (normalize_handle (CStr (strip (str_of_cell value))) = key))
      as [->|Hne].
    + rewrite lookup_insert_eq. split; [by eexists | by left].
    + rewrite lookup_insert_ne by done. split; [|by right].
      intros [Heq|Hin]; [by subst|done].
  - intros key. rewrite filter_app, last_app.
    destruct (decide (normalize_handle (CStr (strip (str_of_cell value))) = key))
      as [Heq|Hne].
    + rewrite filter_cons_True by done. simpl.
      rewrite <- Heq. by rewrite lookup_insert_eq.
    + rewrite lookup_insert_ne by done. rewrite filter_cons_False by done.
      simpl. apply Hlast.
Qed.

Lemma extract_matching_row_spec handles handle_mapping master_pre out r out' :
  (∀ key, key ∈ handles ↔ is_Some (handle_mapping !! key)) →
  (∀ row, row ∈ out → ∃ r value original,
     r ∈ master_pre ∧ r !! 1%nat = Some value ∧ value ≠ CNone
     ∧ handle_mapping !! normalize_handle (CStr (strip (str_of_cell value)))
       = Some original
     ∧ row = <[1%nat := CStr original]> r) →
  extract_matching_row handles handle_mapping out r = Ok out' →
  ∀ row, row ∈ out' → ∃ r' value original,
     r' ∈ master_pre ++ [r] ∧ r' !! 1%nat = Some value ∧ value ≠ CNone
     ∧ handle_mapping !! normalize_handle (CStr (strip (str_of_cell value)))
       = Some original
     ∧ row = <[1%nat := CStr original]> r'.
Proof.
  intros Hdom Hout.
  assert (Hold : ∀ row, row ∈ out → ∃ r' value original,
     r' ∈ master_pre ++ [r] ∧ r' !! 1%nat = Some value ∧ value ≠ CNone
     ∧ handle_mapping !! normalize_handle (CStr (strip (str_of_cell value)))
       = Some original
     ∧ row = <[1%nat := CStr original]> r').
  { intros row Hrow. destruct (Hout row Hrow) as (r' & v & o & Hin & ?).
    exists r', v, o. split; [|done]. apply elem_of_app. by left. }
  unfold extract_matching_row, column_b.
  destruct (r !! 1%nat) as [value|] eqn:Hb; simpl; [|done].
  case_bool_decide as Hv; simpl; [|by intros [= <-]].
  case_bool_decide as Hin; simpl; [|by intros [= <-]].
  intros [= <-] row Hrow.
  apply elem_of_app in Hrow as [Hrow|Hrow]; [by apply Hold|].
  apply list_elem_of_singleton in Hrow. subst row.
  apply Hdom in Hin as [original Ho].
  exists r, value, original. rewrite Ho. simpl.
  split; [apply elem_of_app; right; by apply list_elem_of_singleton|]. done.
Qed.

Lemma extract_matching_row_complete handles handle_mapping master_pre out r out' :
  (∀ key, key ∈ handles ↔ is_Some (handle_mapping !! key)) →
  (∀ r' value original,
     r' ∈ master_pre → r' !! 1%nat = Some value → value ≠ CNone →
     handle_mapping !! normalize_handle (CStr (strip (str_of_cell value)))
       = Some original →
     <[1%nat := CStr original]> r' ∈ out) →
  extract_matching_row handles handle_mapping out r = Ok out' →
  ∀ r' value original,
     r' ∈ master_pre ++ [r] → r' !! 1%nat = Some value → value ≠ CNone →
     handle_mapping !! normalize_handle (CStr (strip (str_of_cell value)))
       = Some original →
     <[1%nat := CStr original]> r' ∈ out'.
Proof.
  intros Hdom Hout Hstep r' value original Hin Hb Hv Ho.
  assert (Hmono : ∀ row, row ∈ out → row ∈ out').
  { intros row Hrow. revert Hstep. unfold extract_matching_row.
    destruct (column_b r); simpl; [|done].
    repeat case_bool_decide; intros [= <-]; try done.
    apply elem_of_app. by left. }
  apply elem_of_app in Hin as [Hin|Hin]; [by eapply Hmono, Hout|].
  apply list_elem_of_singleton in Hin. subst r'.
  revert Hstep. unfold extract_matching_row, column_b. rewrite Hb. simpl.
  rewrite bool_decide_eq_true_2 by done.
  rewrite bool_decide_eq_true_2 by (apply Hdom; by eexists).
  rewrite Ho. simpl. intros [= <-].
  apply elem_of_app. right. by apply list_elem_of_singleton.
Qed.

(** C4, as the code has it: the mapping from normalized key to original
    handle holds, for every key of the reference file, the text of the last
    row of the file with that key; every row the segmenter writes is a master
    row whose handle cell has been replaced by the text the mapping holds for
    its key, and every master row whose key the mapping holds is written so. *)
Theorem handle_mapping_last_wins (reference : list row)
    (handles : gset pystr) (handle_mapping : gmap pystr pystr) :
  extract_handles_from_reference reference = Ok (handles, handle_mapping) →
  (∀ key, key ∈ handles ↔ is_Some (handle_mapping !! key))
  ∧ (∀ key, handle_mapping !! key =
       last (filter (λ s, normalize_handle (CStr s) = key)
               (reference_handles reference)))
  ∧ (∀ master out,
       extract_matching_rows master handles handle_mapping = Ok out →
       (∀ row, row ∈ out → ∃ r value original,
          r ∈ master ∧ r !! 1%nat = Some value ∧ value ≠ CNone
          ∧ handle_mapping
              !! normalize_handle (CStr (strip (str_of_cell value)))
            = Some original
          ∧ row = <[1%nat := CStr original]> r)
       ∧ (∀ r value original,
            r ∈ master → r !! 1%nat = Some value → value ≠ CNone →
            handle_mapping
              !! normalize_handle (CStr (strip (str_of_cell value)))
              = Some original →
            <[1%nat := CStr original]> r ∈ out)).
Proof.
  intros Href. unfold extract_handles_from_reference in Href.
  apply (for_each_prefix_inv _
    (λ pre st, (∀ key, key ∈ st.1 ↔ is_Some (st.2 !! key))
       ∧ (∀ key, st.2 !! key =
            last (filter (λ s, normalize_handle (CStr s) = key)
                    (reference_handles pre))))) in Href.
  - destruct Href as [Hdom Hlast]. simpl in *.
    split; [done|]. split; [done|].
    intros master out Hm. unfold extract_matching_rows in Hm. split.
    + refine (for_each_prefix_inv _
        (λ (pre out : list row), ∀ row, row ∈ out → ∃ r value original,
           r ∈ pre ∧ r !! 1%nat = Some value ∧ value ≠ CNone
           ∧ handle_mapping
               !! normalize_handle (CStr (strip (str_of_cell value)))
             = Some original
           ∧ row = <[1%nat := CStr original]> r) master [] out _ _ Hm).
      * intros row Hrow. by apply elem_of_nil in Hrow.
      * intros pre r out0 out1 Hpre Hstep.
        by eapply extract_matching_row_spec.
    + refine (for_each_prefix_inv _
        (λ (pre out : list row), ∀ r value original,
           r ∈ pre → r !! 1%nat = Some value → value ≠ CNone →
           handle_mapping
             !! normalize_handle (CStr (strip (str_of_cell value)))
             = Some original →
           <[1%nat := CStr original]> r ∈ out) master [] out _ _ Hm).
      * intros r value original Hin. by apply elem_of_nil in Hin.
      * intros pre r out0 out1 Hpre Hstep.
        by eapply extract_matching_row_complete.
  - simpl. split.
    + intros key. rewrite lookup_empty. split; [set_solver|].
      by intros [? ?].
    + intros key. by rewrite lookup_empty.
  - intros pre r st0 st1 [Hdom Hlast] Hstep.
    by eapply extract_handles_row_spec.
Qed.

(** ** Stripping and collapsing *)

Lemma drop_while_suffix p s : ∃ l, s = l ++ drop_while p s.
Proof.
  induction s as [|c s [l IH]]; simpl; [by exists []|].
  destruct (p c); [|by exists []]. exists (c :: l). simpl. by f_equal.
Qed.

Lemma strip_by_infix p s : ∃ l1 l2, s = l1 ++ strip_by p s ++ l2.
Proof.
  unfold strip_by.
  destruct (drop_while_suffix p s) as [l1 H1].
  destruct (drop_while_suffix p (reverse (drop_while p s))) as [l2 H2].
  exists l1, (reverse l2). rewrite <- reverse_app, <- H2, reverse_involutive.
  exact H1.
Qed.

Lemma drop_while_id p s :
  (∀ c, head s = Some c → p c = false) → drop_while p s = s.
Proof.
  destruct s as [|c s]; [done|]. intros Hc. simpl. by rewrite (Hc c).
Qed.

Lemma head_drop_while p s c : head (drop_while p s) = Some c → p c = false.
Proof.
  induction s as [|c0 s IH]; simpl; [done|].
  destruct (p c0) eqn:Hp; [done|]. simpl. by intros [= <-].
Qed.

Lemma last_drop_while p s c :
  last (drop_while p s) = Some c → last s = Some c.
Proof.
  destruct (drop_while_suffix p s) as [l Hl]. intros Hc.
  rewrite Hl, last_app. by rewrite Hc.
Qed.

Lemma head_reverse {A} (l : list A) : head (reverse l) = last l.
Proof.
  induction l as [|x l IH] using rev_ind; [done|].
  by rewrite reverse_app, last_snoc.
Qed.

Lemma last_reverse {A} (l : list A) : last (reverse l) = head l.
Proof. by rewrite <- head_reverse, reverse_involutive. Qed.

Lemma strip_by_ends p s :
  (∀ c, head (strip_by p s) = Some c → p c = false)
  ∧ (∀ c, last (strip_by p s) = Some c → p c = false).
Proof.
  unfold strip_by. split; intros c.
  - rewrite head_reverse. intros Hc. apply last_drop_while in Hc.
    rewrite last_reverse in Hc. by apply head_drop_while in Hc.
  - rewrite last_reverse. apply head_drop_while.
Qed.

Lemma strip_by_id p s :
  (∀ c, head s = Some c → p c = false) →
  (∀ c, last s = Some c → p c = false) →
  strip_by p s = s.
Proof.
  intros Hh Hl. unfold strip_by. rewrite (drop_while_id p s) by done.
  rewrite drop_while_id; [apply reverse_involutive|].
  intros c. rewrite head_reverse. apply Hl.
Qed.

Lemma has_double_hyphen_app l1 l2 :
  has_double_hyphen (l1 ++ l2) = false →
  has_double_hyphen l1 = false ∧ has_double_hyphen l2 = false.
Proof.
  induction l1 as [|a l1 IH]; [done|].
  destruct l1 as [|b l1].
  - simpl. destruct l2 as [|b l2]; [done|].
    intros Hdd. apply orb_false_elim in Hdd as [_ Hdd]. done.
  - change (has_double_hyphen ((a :: b :: l1) ++ l2))
      with ((a =? HYPHEN) && (b =? HYPHEN)
            || has_double_hyphen ((b :: l1) ++ l2)).
    change (has_double_hyphen (a :: b :: l1))
      with ((a =? HYPHEN) && (b =? HYPHEN) || has_double_hyphen (b :: l1)).
    intros Hdd. apply orb_false_elim in Hdd as [Hab Hdd].
    destruct (IH Hdd) as [H1 H2]. by rewrite Hab, H1.
Qed.

Lemma has_double_hyphen_strip_by p s :
  has_double_hyphen s = false → has_double_hyphen (strip_by p s) = false.
Proof.
  destruct (strip_by_infix p s) as (l1 & l2 & Hs). intros Hdd.
  rewrite Hs in Hdd. apply has_double_hyphen_app in Hdd as [_ Hdd].
  by apply has_double_hyphen_app in Hdd as [Hdd _].
Qed.

Lemma Forall_strip_by (P : N → Prop) p s :
  Forall P s → Forall P (strip_by p s).
Proof.
  destruct (strip_by_infix p s) as (l1 & l2 & Hs). intros Hall.
  rewrite Hs in Hall. apply Forall_app in Hall as [_ Hall].
  by apply Forall_app in Hall as [Hall _].
Qed.

Lemma replace_double_hyphen_fuel_spec (P : N → Prop) fuel s :
  (length s ≤ fuel)%nat →
  (length (replace_double_hyphen_fuel fuel s) ≤ length s)%nat
  ∧ (has_double_hyphen s = true →
     (length (replace_double_hyphen_fuel fuel s) < length s)%nat)
  ∧ (P HYPHEN → Forall P s → Forall P (replace_double_hyphen_fuel fuel s)).
Proof.
  revert s. induction fuel as [|fuel IH]; intros s Hlen.
  { destruct s; simpl in *; [|lia]. done. }
  destruct s as [|a [|b s]]; [done | done |].
  change (has_double_hyphen (a :: b :: s))
    with ((a =? HYPHEN) && (b =? HYPHEN) || has_double_hyphen (b :: s)).
  simpl replace_double_hyphen_fuel.
  destruct ((a =? HYPHEN) && (b =? HYPHEN)) eqn:Hab; simpl in *.
  - destruct (IH s) as (Hle & _ & Hall); [lia|].
    split; [lia|]. split; [lia|].
    intros Hh Hs. constructor; [done|]. apply Hall; [done|].
    by do 2 apply Forall_inv_tail in Hs.
  - destruct (IH (b :: s)) as (Hle & Hlt & Hall); [simpl; lia|].
    simpl in *. split; [lia|]. split.
    + intros Hdd. apply Hlt in Hdd. lia.
    + intros Hh Hs. constructor; [by apply Forall_inv in Hs|].
      apply Hall; [done|]. by apply Forall_inv_tail in Hs.
Qed.

(** The loop over ['--'] leaves by its condition, never by lack of fuel. *)
Lemma collapse_hyphens_no_double s :
  has_double_hyphen (collapse_hyphens s) = false.
Proof.
  unfold collapse_hyphens.
  cut (∀ fuel s, (length s ≤ fuel)%nat →
         has_double_hyphen (collapse_hyphens_fuel fuel s) = false).
  { intros Hcut. by apply Hcut. }
  clear s. induction fuel as [|fuel IH]; intros s Hlen.
  - destruct s; simpl in *; [done | lia].
  - simpl. destruct (has_double_hyphen s) eqn:Hdd; [|done].
    apply IH. unfold replace_double_hyphen.
    destruct (replace_double_hyphen_fuel_spec (λ _, True) (length s) s)
      as (_ & Hlt & _); [lia|].
    apply Hlt in Hdd. lia.
Qed.

Lemma collapse_hyphens_Forall (P : N → Prop) s :
  P HYPHEN → Forall P s → Forall P (collapse_hyphens s).
Proof.
  intros Hh. unfold collapse_hyphens. generalize (length s) as fuel.
  intros fuel. revert s. induction fuel as [|fuel IH]; intros s Hs; simpl.
  - by destruct (has_double_hyphen s).
  - destruct (has_double_hyphen s); [|done]. apply IH.
    unfold replace_double_hyphen.
    by apply (replace_double_hyphen_fuel_spec P (length s) s).
Qed.

Lemma collapse_hyphens_id s :
  has_double_hyphen s = false → collapse_hyphens s = s.
Proof.
  intros Hdd. unfold collapse_hyphens.
  destruct (length s); simpl; by rewrite Hdd.
Qed.

Lemma filter_all {A} (P : A → Prop) `{∀ x, Decision (P x)} (l : list A) :
  Forall P l → filter P l = l.
Proof.
  induction 1 as [|x l Hx _ IH]; [done|].
  rewrite filter_cons_True by done. by f_equal.
Qed.

(** ** The handle normalizer *)

Lemma kept_char_not_space c : kept_char c = true → isspace c = false.
Proof.
  unfold kept_char, isascii_alnum, isspace, HYPHEN.
  intros Hk. apply not_true_is_false. intros Hs.
  rewrite !orb_true_iff, !andb_true_iff, !N.leb_le, ?N.eqb_eq in Hk.
  rewrite !orb_true_iff, !andb_true_iff, !N.leb_le, !N.eqb_eq in Hs.
  lia.
Qed.

Lemma key_char_kept c : key_char c = true → kept_char c = true.
Proof.
  unfold kept_char, key_char, isascii_alnum, HYPHEN.
  rewrite !orb_true_iff, !andb_true_iff, !N.leb_le, !N.eqb_eq. lia.
Qed.

Lemma key_char_not_symbol c :
  key_char c = true → c ∉ problematic_symbols.
Proof.
  unfold key_char, problematic_symbols, HYPHEN. intros Hc Hin.
  repeat (apply elem_of_cons in Hin as [->|Hin]; [by vm_compute in Hc|]).
  by apply elem_of_nil in Hin.
Qed.

Lemma strip_kept s :
  Forall (λ c, kept_char c = true) s → strip s = s.
Proof.
  intros Hs. apply strip_by_id; intros c Hc; apply kept_char_not_space.
  - destruct s as [|c0 s]; [done|]. injection Hc as <-.
    by apply Forall_inv in Hs.
  - rewrite Forall_forall in Hs. apply Hs.
    apply last_Some in Hc as [l' ->]. set_solver.
Qed.

(** What [normalize_handle] computes on a value that is not falsy, with the
    text handed to the decomposition named. *)
Lemma normalize_handle_steps (handle : cell) :
  falsy handle = false →
  ∃ undecorated,
    undecorated = foldl (λ acc symbol, remove_char symbol acc)
                    (str_lower (str_of_cell handle)) problematic_symbols
    ∧ Forall (λ c, c ∉ problematic_symbols) undecorated
    ∧ normalize_handle handle =
        strip (strip_hyphens (collapse_hyphens
          (filter (λ c, kept_char c) (nfkd undecorated)))).
Proof.
  intros Hf. eexists. split; [reflexivity|]. split.
  - unfold problematic_symbols, remove_char. simpl.
    apply Forall_forall. intros c Hc.
    repeat (apply list_elem_of_filter in Hc as [? Hc]).
    set_solver.
  - unfold normalize_handle. rewrite Hf. done.
Qed.

Lemma normalize_handle_kept (handle : cell) :
  Forall (λ c, kept_char c = true) (normalize_handle handle).
Proof.
  unfold normalize_handle. destruct (falsy handle); [constructor|].
  apply Forall_strip_by, Forall_strip_by.
  apply collapse_hyphens_Forall; [done|].
  apply Forall_forall. intros c Hc.
  apply list_elem_of_filter in Hc as [Hc _]. by apply Is_true_true.
Qed.

Lemma normalize_handle_hyphens (handle : cell) :
  has_double_hyphen (normalize_handle handle) = false
  ∧ head (normalize_handle handle) ≠ Some HYPHEN
  ∧ last (normalize_handle handle) ≠ Some HYPHEN.
Proof.
  destruct (falsy handle) eqn:Hf.
  { assert (normalize_handle handle = []) as ->
      by (unfold normalize_handle; by rewrite Hf).
    done. }
  destruct (normalize_handle_steps handle Hf) as (t & _ & _ & ->).
  set (body := collapse_hyphens (filter (λ c, kept_char c) (nfkd t))).
  assert (Hkept : Forall (λ c, kept_char c = true) (strip_hyphens body)).
  { apply Forall_strip_by, collapse_hyphens_Forall; [done|].
    apply Forall_forall. intros c Hc.
    apply list_elem_of_filter in Hc as [Hc _]. by apply Is_true_true. }
  rewrite (strip_kept _ Hkept).
  split; [apply has_double_hyphen_strip_by, collapse_hyphens_no_double|].
  unfold strip_hyphens.
  destruct (strip_by_ends (N.eqb HYPHEN) body) as [Hhead Hlast].
  split.
  - intros Hh. apply Hhead in Hh. by rewrite N.eqb_refl in Hh.
  - intros Hl. apply Hlast in Hl. by rewrite N.eqb_refl in Hl.
Qed.

Lemma remove_symbols_filter (symbols : list N) (s : pystr) :
  foldl (λ acc symbol, remove_char symbol acc) s symbols
  = filter (λ c, c ∉ symbols) s.
Proof.
  revert s. induction symbols as [|symbol symbols IH]; intros s; simpl.
  - symmetry. apply filter_all, Forall_forall. intros c _. apply not_elem_of_nil.
  - rewrite IH. unfold remove_char. rewrite list_filter_filter.
    apply list_filter_iff. intros c. rewrite not_elem_of_cons. tauto.
Qed.

(** The parts of C6 that hold, for every runtime: a null or empty handle
    gives the empty key; the key consists of ASCII letters, digits and
    hyphens, holds no two hyphens in a row (the loop over ['--'] ends by its
    condition) and neither starts nor ends with a hyphen; and the key of any
    other handle is computed from its lower-cased text with the four symbols
    taken out, which is what is decomposed: no character of a symbol's
    decomposition reaches the key. *)
Theorem normalize_handle_shape (handle : cell) :
  normalize_handle CNone = []
  ∧ normalize_handle (CStr []) = []
  ∧ Forall (λ c, kept_char c = true) (normalize_handle handle)
  ∧ has_double_hyphen (normalize_handle handle) = false
  ∧ head (normalize_handle handle) ≠ Some HYPHEN
  ∧ last (normalize_handle handle) ≠ Some HYPHEN
  ∧ (falsy handle = false →
     ∃ undecorated,
       undecorated = filter (λ c, c ∉ problematic_symbols)
                       (str_lower (str_of_cell handle))
       ∧ Forall (λ c, c ∉ problematic_symbols) undecorated
       ∧ normalize_handle handle =
           strip (strip_hyphens (collapse_hyphens
             (filter (λ c, kept_char c) (nfkd undecorated))))).
Proof.
  split; [done|]. split; [done|].
  split; [apply normalize_handle_kept|].
  destruct (normalize_handle_hyphens handle) as (Hdd & Hhead & Hlast).
  repeat split; try done.
  intros Hf. destruct (normalize_handle_steps handle Hf)
    as (t & Ht & Hsym & Heq).
  exists t. split; [|done]. rewrite Ht. apply remove_symbols_filter.
Qed.

(** Idempotence where it does hold: a key without upper-case letters is its
    own key, in every runtime whose [lower] and decomposition leave texts
    of a-z, 0-9 and hyphens as they are. *)
Theorem normalize_handle_idempotent_on_keys (handle : cell) :
  (∀ s, Forall (λ c, key_char c = true) s → str_lower s = s) →
  (∀ s, Forall (λ c, key_char c = true) s → nfkd s = s) →
  Forall (λ c, key_char c = true) (normalize_handle handle) →
  normalize_handle (CStr (normalize_handle handle)) = normalize_handle handle.
Proof.
  intros Hlower Hnfkd Hkey.
  pose proof (normalize_handle_kept handle) as Hkept.
  destruct (normalize_handle_hyphens handle) as (Hdd & Hhead & Hlast).
  set (key := normalize_handle handle) in *.
  unfold normalize_handle at 1. cbn [falsy str_of_cell].
  case_bool_decide as Hnil; [done|].
  rewrite (Hlower key Hkey).
  assert (Hsym : foldl (λ acc symbol, remove_char symbol acc) key
                   problematic_symbols = key).
  { unfold problematic_symbols, remove_char. simpl.
    assert (Hid : ∀ symbol, symbol ∈ problematic_symbols →
                    filter (λ c, c ≠ symbol) key = key).
    { intros symbol Hs. apply filter_all, Forall_forall.
      intros c Hc Heq. subst c. rewrite Forall_forall in Hkey.
      by apply (key_char_not_symbol symbol (Hkey _ Hc)). }
    unfold problematic_symbols in Hid.
    rewrite !Hid; set_solver. }
  rewrite Hsym, (Hnfkd key Hkey).
  assert (Hfilter : filter (λ char, isascii_alnum char || (char =? HYPHEN)) key
                    = key).
  { apply filter_all, Forall_forall. intros c Hc.
    rewrite Forall_forall in Hkept. apply Is_true_true. by apply Hkept. }
  rewrite Hfilter, (collapse_hyphens_id key Hdd).
  assert (Hstrip : strip_hyphens key = key).
  { apply strip_by_id; intros c Hc.
    - destruct (N.eqb_spec HYPHEN c) as [<-|]; done.
    - destruct (N.eqb_spec HYPHEN c) as [<-|]; done. }
  rewrite Hstrip. by apply strip_kept.
Qed.

(** ** More on the gender merge *)

Lemma update_gender_list_cases (current : list json) (incoming : pystr) :
  (JStr incoming ∈ current
   ∧ update_gender_list current incoming = (current, false))
  ∨ ((JStr incoming ∉ current)
     ∧ ∃ opp, JStr opp ∈ current
         ∧ update_gender_list current incoming =
             ((λ g, if json_eq_str g opp then JStr incoming else g)
                <$> current, true))
  ∨ ((JStr incoming ∉ current)
     ∧ update_gender_list current incoming
       = (current ++ [JStr incoming], true)).
Proof.
  unfold update_gender_list.
  destruct (str_in incoming current) eqn:Hin.
  { left. split; [by apply str_in_true | done]. }
  apply str_in_false in Hin. right.
  assert (Hrest :
    (if str_in (u "Unisex") current
     then (current ++ [JStr incoming], true)
     else if bool_decide (current = [])
     then ([JStr incoming], true)
     else (current ++ [JStr incoming], true))
    = (current ++ [JStr incoming], true)).
  { destruct (str_in (u "Unisex") current); [done|].
    case_bool_decide; [by subst | done]. }
  rewrite Hrest.
  destruct (get_opposite_gender incoming) as [opp|]; [|by right].
  destruct (str_in opp current) eqn:Ho; [|by right].
  left. split; [done|]. exists opp. split; [by apply str_in_true | done].
Qed.

Lemma json_eq_str_refl text : json_eq_str (JStr text) text = true.
Proof. by apply json_eq_str_true. Qed.

(** Merging the same gender a second time changes nothing: after a merge
    the incoming value is in the list, the list is returned as it is with
    [changed = false] exactly when the value was there before, and a second
    merge of the same value returns its argument with [changed = false]. *)
Theorem update_gender_list_idempotent (current : list json)
    (incoming : pystr) :
  JStr incoming ∈ (update_gender_list current incoming).1
  ∧ ((update_gender_list current incoming).2 = false
     ↔ JStr incoming ∈ current)
  ∧ ((update_gender_list current incoming).2 = false →
     (update_gender_list current incoming).1 = current)
  ∧ update_gender_list (update_gender_list current incoming).1 incoming
    = ((update_gender_list current incoming).1, false).
Proof.
  assert (Hin : JStr incoming ∈ (update_gender_list current incoming).1).
  { destruct (update_gender_list_cases current incoming)
      as [[Hin ->] | [[Hn (opp & Ho & ->)] | [Hn ->]]]; simpl.
    - done.
    - apply list_elem_of_fmap. exists (JStr opp). split; [|done].
      by rewrite json_eq_str_refl.
    - apply elem_of_app. right. by apply list_elem_of_singleton. }
  split; [done|]. split; [|split].
  - destruct (update_gender_list_cases current incoming)
      as [[Hc ->] | [[Hn (opp & Ho & ->)] | [Hn ->]]]; simpl; split; done.
  - destruct (update_gender_list_cases current incoming)
      as [[Hc ->] | [[Hn (opp & Ho & ->)] | [Hn ->]]]; simpl; done.
  - unfold update_gender_list at 1.
    apply str_in_true in Hin. by rewrite Hin.
Qed.

(** A merge never shortens the list and adds at most one element, whatever
    the list holds; and it never introduces a duplicate: a list without
    duplicates stays without duplicates. *)
Theorem update_gender_list_no_new_duplicates (current : list json)
    (incoming : pystr) :
  (length current ≤ length (update_gender_list current incoming).1)%nat
  ∧ (length (update_gender_list current incoming).1 ≤ S (length current))%nat
  ∧ (NoDup current → NoDup (update_gender_list current incoming).1).
Proof.
  destruct (update_gender_list_cases current incoming)
    as [[Hc ->] | [[Hn (opp & Ho & ->)] | [Hn ->]]]; simpl.
  - split; [lia|]. split; [lia|done].
  - rewrite length_fmap. split; [lia|]. split; [lia|]. intros Hnd.
    apply NoDup_fmap_2_strong; [|done].
    intros x y Hx Hy.
    destruct (json_eq_str x opp) eqn:Hxo, (json_eq_str y opp) eqn:Hyo.
    + apply json_eq_str_true in Hxo, Hyo. congruence.
    + intros <-. done.
    + intros ->. done.
    + done.
  - rewrite length_app. simpl. split; [lia|]. split; [lia|]. intros Hnd.
    apply NoDup_app. split; [done|]. split; [|apply NoDup_singleton].
    intros x Hx Hs. apply list_elem_of_singleton in Hs. by subst.
Qed.

(** ** The comma-separated codec *)

Lemma split_on_no_sep sep s w : w ∈ split_on sep s → sep ∉ w.
Proof.
  revert w. induction s as [|c s IH]; intros w; simpl.
  - intros Hw. apply list_elem_of_singleton in Hw. subst. apply not_elem_of_nil.
  - destruct (N.eqb_spec c sep) as [->|Hne].
    + intros Hw. apply elem_of_cons in Hw as [->|Hw];
        [apply not_elem_of_nil | by apply IH].
    + destruct (split_on sep s) as [|w0 ws] eqn:Hs.
      * intros Hw. apply list_elem_of_singleton in Hw. subst. set_solver.
      * intros Hw. apply elem_of_cons in Hw as [->|Hw].
        -- apply not_elem_of_cons. split; [done|]. apply IH. by left.
        -- apply IH. by right.
Qed.

Lemma strip_by_no_char p s (c : N) : c ∉ s → c ∉ strip_by p s.
Proof.
  destruct (strip_by_infix p s) as (l1 & l2 & Hs). intros Hc Hin.
  apply Hc. rewrite Hs. set_solver.
Qed.

(** Every tag [parse_comma_separated_tags] returns is a text that is not
    empty, holds no comma and neither starts nor ends with whitespace; a
    blank cell, an empty text and a text of commas and whitespace only all
    give the empty list. *)
Theorem parse_comma_separated_tags_clean (value : cell) (tag : pystr) :
  tag ∈ parse_comma_separated_tags value →
  tag ≠ [] ∧ (COMMA ∉ tag)
  ∧ (∀ c, head tag = Some c → isspace c = false)
  ∧ (∀ c, last tag = Some c → isspace c = false)
  ∧ strip tag = tag.
Proof.
  unfold parse_comma_separated_tags.
  destruct (bool_decide (value = CNone) || cell_eq_str value []);
    [intros Hin; by apply elem_of_nil in Hin|].
  intros Hin. apply list_elem_of_filter in Hin as [Hne Hin].
  apply list_elem_of_fmap in Hin as (w & -> & Hw).
  split; [done|]. split.
  { apply strip_by_no_char. by eapply split_on_no_sep. }
  destruct (strip_by_ends isspace w) as [Hh Hl].
  split; [exact Hh|]. split; [exact Hl|].
  by apply strip_by_id.
Qed.

(** ** The JSON encoder *)

Lemma hex_digit_printable d :
  d < 16 → 32 ≤ hex_digit d ∧ hex_digit d ≤ 126.
Proof.
  intros Hd. unfold hex_digit. destruct (N.ltb_spec d 10); lia.
Qed.

Lemma hex4_printable n : Forall (λ c, 32 ≤ c ∧ c ≤ 126) (hex4 n).
Proof.
  unfold hex4.
  repeat (constructor; [apply hex_digit_printable, N.mod_lt; lia|]).
  constructor.
Qed.

Lemma escape_char_printable c : Forall (λ c, 32 ≤ c ∧ c ≤ 126) (escape_char c).
Proof.
  assert (Hesc : ∀ x, 32 ≤ x ∧ x ≤ 126 →
            Forall (λ c, 32 ≤ c ∧ c ≤ 126) [BACKSLASH; x]).
  { intros x Hx. unfold BACKSLASH. by repeat constructor; try lia. }
  assert (Hhex : ∀ n, Forall (λ c, 32 ≤ c ∧ c ≤ 126)
                        (BACKSLASH :: 117 :: hex4 n)).
  { intros n. unfold BACKSLASH.
    constructor; [lia|]. constructor; [lia|]. apply hex4_printable. }
  unfold escape_char.
  destruct (c =? QUOTE); [apply Hesc; unfold QUOTE; lia|].
  destruct (c =? BACKSLASH); [apply Hesc; unfold BACKSLASH; lia|].
  destruct (c =? 10); [apply Hesc; lia|].
  destruct (c =? 13); [apply Hesc; lia|].
  destruct (c =? 9); [apply Hesc; lia|].
  destruct (c =? 8); [apply Hesc; lia|].
  destruct (c =? 12); [apply Hesc; lia|].
  destruct ((32 <=? c) && (c <=? 126)) eqn:Hp.
  { apply andb_true_iff in Hp as [H1 H2]. apply N.leb_le in H1, H2.
    by repeat constructor. }
  destruct (c <? 65536); [apply Hhex|].
  apply Forall_app. split; apply Hhex.
Qed.

Lemma dumps_str_printable s : Forall (λ c, 32 ≤ c ∧ c ≤ 126) (dumps_str s).
Proof.
  unfold dumps_str, QUOTE. constructor; [lia|].
  apply Forall_app. split; [|by constructor; [lia|constructor]].
  induction s as [|c s IH]; [constructor|].
  csimpl. apply Forall_app. split; [apply escape_char_printable | done].
Qed.

Lemma json_dumps_JList items :
  json_dumps (JList items) = u "[" ++ dumps_items items ++ u "]".
Proof. reflexivity. Qed.

Lemma dumps_items_cons x y items :
  dumps_items (x :: y :: items)
  = json_dumps x ++ u ", " ++ dumps_items (y :: items).
Proof. reflexivity. Qed.

(** The cell text [format_json_list] produces for a list of tags consists of
    printable ASCII characters only, whatever the tags hold; it starts with
    an opening and ends with a closing bracket, so it is never the empty
    text. *)
Theorem format_json_list_printable (tags : list pystr) :
  Forall (λ c, 32 ≤ c ∧ c ≤ 126) (format_json_list (JStr <$> tags))
  ∧ format_json_list (JStr <$> tags) ≠ []
  ∧ head (format_json_list (JStr <$> tags)) = Some 91
  ∧ last (format_json_list (JStr <$> tags)) = Some 93.
Proof.
  unfold format_json_list. rewrite json_dumps_JList.
  change (u "[") with [91]. change (u "]") with [93].
  split; [|split; [done|split; [done|]]].
  - constructor; [lia|]. apply Forall_app.
    split; [|by constructor; [lia|constructor]].
    induction tags as [|t tags IH]; [constructor|].
    rewrite fmap_cons. destruct tags as [|t' tags].
    + apply dumps_str_printable.
    + rewrite fmap_cons in *. rewrite dumps_items_cons.
      apply Forall_app. split; [apply dumps_str_printable|].
      change (u ", ") with [44; 32].
      constructor; [lia|]. constructor; [lia|]. apply IH.
  - change (last (([91] ++ dumps_items (JStr <$> tags)) ++ [93]) = Some 93).
    apply last_snoc.
Qed.

(** Decoding undoes encoding wherever the runtime's decoder undoes its
    encoder: the text written for a list is never taken for a blank cell,
    and a decoded list is returned as it is. *)
Theorem parse_format_json_list (values : list json) :
  json_loads (format_json_list values) = Some (JList values) →
  parse_json_list (CStr (format_json_list values)) = Ok values.
Proof.
  intros Hloads.
  assert (Hne : format_json_list values ≠ []).
  { unfold format_json_list. by rewrite json_dumps_JList. }
  unfold parse_json_list.
  rewrite (bool_decide_eq_false_2 (CStr _ = CNone)) by done.
  cbn [cell_eq_str orb]. rewrite (bool_decide_eq_false_2 _ Hne).
  unfold try_except, json_loads_cell. by rewrite Hloads.
Qed.

(** ** Whole passes *)

Lemma rows_written_nil value width : rows_written value width [] [].
Proof. split; [done|]. intros i r Hl. by rewrite lookup_nil in Hl. Qed.

Lemma rows_written_snoc value width rows out r g :
  rows_written value width rows out →
  value (bool_decide (handle_of r ∈ handles rows)) r g →
  rows_written value width (rows ++ [r]) (out ++ [copy_row width r g]).
Proof.
  intros [Hlen Hrows] Hg. split.
  - rewrite !length_app. simpl. lia.
  - intros i r' Hl.
    apply lookup_snoc_Some in Hl as [[Hi Hl] | [-> <-]].
    + destruct (Hrows i r' Hl) as (g' & Hout & Hg').
      exists g'. rewrite lookup_app_l by lia. split; [done|].
      by rewrite take_app_le by lia.
    + exists g. rewrite <- Hlen, list_lookup_middle by done. split; [done|].
      by rewrite Hlen, take_app_length.
Qed.

Lemma rows_written_handles value width rows out :
  (HANDLE_COL ≤ width)%nat →
  rows_written value width rows out → handles out = handles rows.
Proof.
  intros Hw [Hlen Hrows]. unfold handles.
  apply list_eq. intros i. rewrite !list_lookup_fmap.
  destruct (rows !! i) as [r|] eqn:Hr.
  - destruct (Hrows i r Hr) as (g & -> & _). simpl.
    by rewrite handle_of_copy_row.
  - apply lookup_ge_None in Hr. rewrite lookup_ge_None_2 by lia. done.
Qed.

Lemma length_copy_row width r g : length (copy_row width r g) = width.
Proof. unfold copy_row. by rewrite length_fmap, length_seq. Qed.

Lemma cell_value_beyond r column :
  (length r < column)%nat → cell_value r column = CNone.
Proof.
  intros Hlen. unfold cell_value. rewrite lookup_ge_None_2 by lia. done.
Qed.

Lemma copy_row_frame width r g column :
  (length r ≤ width)%nat → (1 ≤ column)%nat → column ≠ GENDER_COL →
  cell_value (copy_row width r g) column = cell_value r column.
Proof.
  intros Hlen Hc Hg. rewrite cell_value_copy_row by done.
  rewrite (bool_decide_eq_false_2 _ Hg).
  case_bool_decide; [done|]. symmetry. apply cell_value_beyond. lia.
Qed.

Lemma copy_row_copy_row width r g g' :
  (GENDER_COL ≤ width)%nat ∨ g = CNone →
  copy_row width (copy_row width r g) g' = copy_row width r g'.
Proof.
  intros Hw. unfold copy_row at 1 3. apply list_fmap_ext.
  intros i col Hcol. apply lookup_seq in Hcol as [-> Hi].
  case_bool_decide as Hg; [done|].
  rewrite cell_value_copy_row by lia.
  rewrite bool_decide_eq_true_2 by lia.
  by rewrite (bool_decide_eq_false_2 _ Hg).
Qed.

Lemma max_column_row ws touched r :
  r ∈ data_rows ws → (length r ≤ max_column ws touched)%nat.
Proof.
  intros Hr. unfold max_column.
  assert (length r ≤ max_list (length <$> header_row ws :: data_rows ws))%nat.
  { apply max_list_elem_of_le, list_elem_of_fmap.
    exists r. split; [done|]. by right. }
  lia.
Qed.

Lemma update_gender_tags_row_written brand_name size_label gender width
    pre st r st' :
  (HANDLE_COL ≤ width)%nat →
  (∀ h, h ∈ st.1 ↔
        h ∈ handles (filter (λ r, matches_criteria brand_name size_label r) pre)) →
  rows_written (updater_gender_value gender) width
    (filter (λ r, matches_criteria brand_name size_label r) pre) st.2 →
  update_gender_tags_row brand_name size_label gender width st r = Ok st' →
  (∀ h, h ∈ st'.1 ↔
        h ∈ handles (filter (λ r, matches_criteria brand_name size_label r)
                       (pre ++ [r])))
  ∧ rows_written (updater_gender_value gender) width
      (filter (λ r, matches_criteria brand_name size_label r) (pre ++ [r]))
      st'.2.
Proof.
  intros Hw Hseen Hrows. destruct st as [seen out]. simpl in *.
  rewrite filter_app. unfold update_gender_tags_row.
  fold (matches_criteria brand_name size_label r).
  destruct (matches_criteria brand_name size_label r) eqn:Hm.
  2: { intros [= <-]. rewrite filter_cons_False by (rewrite Hm; simpl; tauto).
       rewrite filter_nil, app_nil_r. done. }
  rewrite filter_cons_True by (rewrite Hm; simpl; tauto). rewrite filter_nil.
  set (rows := filter (λ r, matches_criteria brand_name size_label r) pre) in *.
  fold (handle_of r). fold (gender_of r).
  assert (Hs : ∀ h, h ∈ {[handle_of r]} ∪ seen ↔ h ∈ handles (rows ++ [r])).
  { intros h. rewrite handles_snoc, elem_of_app, list_elem_of_singleton.
    rewrite elem_of_union, elem_of_singleton, Hseen. tauto. }
  case_bool_decide as Hfirst.
  - destruct (parse_json_list (gender_of r)) as [current|] eqn:Hp; [|done].
    simpl. destruct (update_gender_list current gender) as [updated changed]
      eqn:Hu.
    intros [= <-]. simpl. split; [done|].
    apply rows_written_snoc; [done|].
    rewrite bool_decide_eq_false_2 by by rewrite <- Hseen.
    exists current. by rewrite Hu.
  - intros [= <-]. simpl. split.
    + intros h. rewrite <- Hs. set_solver.
    + apply rows_written_snoc; [done|].
      rewrite bool_decide_eq_true_2 by by rewrite <- Hseen. done.
Qed.

Lemma update_gender_tags_written brand_name size_label gender ws out :
  update_gender_tags brand_name size_label gender ws = Ok out →
  rows_written (updater_gender_value gender) (max_column ws GENDER_COL)
    (filter (λ r, matches_criteria brand_name size_label r) (data_rows ws))
    out.
Proof.
  unfold update_gender_tags.
  destruct (for_each _ _ _) as [st|e] eqn:Hloop; simpl; [|done].
  intros [= <-].
  assert (Hw : (HANDLE_COL ≤ max_column ws GENDER_COL)%nat).
  { pose proof (max_column_ge ws GENDER_COL).
    unfold HANDLE_COL, GENDER_COL in *. lia. }
  apply (for_each_prefix_inv _
    (λ pre st,
       (∀ h, h ∈ st.1 ↔
          h ∈ handles (filter (λ r, matches_criteria brand_name size_label r)
                         pre))
       ∧ rows_written (updater_gender_value gender)
           (max_column ws GENDER_COL)
           (filter (λ r, matches_criteria brand_name size_label r) pre) st.2))
    in Hloop; [by destruct Hloop | |].
  - simpl. split; [set_solver | apply rows_written_nil].
  - intros pre x st0 st1 [Hseen Hrows] Hstep.
    by eapply update_gender_tags_row_written.
Qed.

Lemma max_list_le (ns : list nat) (m : nat) :
  (∀ n, n ∈ ns → (n ≤ m)%nat) → (max_list ns ≤ m)%nat.
Proof.
  induction ns as [|n ns IH]; intros Hle; simpl; [lia|].
  pose proof (Hle n (list_elem_of_here _ _)).
  assert (max_list ns ≤ m)%nat by (apply IH; intros k Hk; apply Hle; by right).
  lia.
Qed.

Lemma max_column_output_sheet ws touched out :
  out ≠ [] →
  Forall (λ r, length r = max_column ws touched) out →
  max_column (output_sheet ws out) touched = max_column ws touched.
Proof.
  intros Hne Hall.
  change (max_column (output_sheet ws out) touched)
    with (touched `max` (length (header_row ws)
                         `max` max_list (length <$> out)))%nat.
  assert (Hh : (length (header_row ws) ≤ max_column ws touched)%nat).
  { unfold max_column. simpl. lia. }
  assert (Hle : (max_list (length <$> out) ≤ max_column ws touched)%nat).
  { apply max_list_le. intros n Hn.
    apply list_elem_of_fmap in Hn as (r & -> & Hr).
    rewrite Forall_forall in Hall. by rewrite (Hall r Hr). }
  assert (Hge : (max_column ws touched ≤ max_list (length <$> out))%nat).
  { destruct out as [|r out]; [done|].
    apply max_list_elem_of_le, list_elem_of_fmap. exists r.
    split; [|by left]. by apply Forall_inv in Hall. }
  pose proof (max_column_ge ws touched). lia.
Qed.

Lemma rows_written_lengths value width rows out :
  rows_written value width rows out → Forall (λ r, length r = width) out.
Proof.
  intros [Hlen Hrows]. apply Forall_lookup. intros i r' Hi.
  destruct (rows !! i) as [r|] eqn:Hr.
  - destruct (Hrows i r Hr) as (g & Hout & _).
    rewrite Hi in Hout. injection Hout as ->. apply length_copy_row.
  - apply lookup_ge_None in Hr. apply lookup_lt_Some in Hi. lia.
Qed.

Lemma matches_criteria_copy_row brand_name size_label width r g :
  (length r ≤ width)%nat → (SIZE_COL ≤ width)%nat →
  matches_criteria brand_name size_label (copy_row width r g)
  = matches_criteria brand_name size_label r.
Proof.
  intros Hlen Hw. unfold matches_criteria.
  rewrite !copy_row_frame
    by first [done | unfold BRAND_COL, SIZE_COL, GENDER_COL; lia].
  done.
Qed.

(** The updater selects and copies: when its row loop returns, the output
    holds one row for every input row that meets the brand and size criteria,
    in input order, and no other row; every cell of an output row but the
    gender cell is the cell of its input row. *)
Theorem update_gender_tags_selects_and_copies brand_name size_label gender ws
    out :
  update_gender_tags brand_name size_label gender ws = Ok out →
  length out
  = length (filter (λ r, matches_criteria brand_name size_label r)
              (data_rows ws))
  ∧ ∀ i r,
      filter (λ r, matches_criteria brand_name size_label r) (data_rows ws)
        !! i = Some r →
      ∃ r', out !! i = Some r'
        ∧ ∀ column, (1 ≤ column)%nat → column ≠ GENDER_COL →
            cell_value r' column = cell_value r column.
Proof.
  intros Hout.
  destruct (update_gender_tags_written _ _ _ _ _ Hout) as [Hlen Hrows].
  split; [done|]. intros i r Hr.
  destruct (Hrows i r Hr) as (g & Hi & _).
  eexists. split; [done|]. intros column Hc Hg.
  apply copy_row_frame; [|done|done].
  apply max_column_row. apply list_elem_of_lookup_2 in Hr.
  by apply list_elem_of_filter in Hr as [_ Hr].
Qed.

(** Running the updater again on its own output, with the same answers,
    writes the same sheet, provided the runtime's decoder reads back the
    lists the first pass encoded. *)
Theorem update_gender_tags_rerun brand_name size_label gender ws out :
  (∀ r current,
     r ∈ data_rows ws → parse_json_list (gender_of r) = Ok current →
     json_loads (format_json_list (update_gender_list current gender).1)
     = Some (JList (update_gender_list current gender).1)) →
  update_gender_tags brand_name size_label gender ws = Ok out →
  update_gender_tags brand_name size_label gender (output_sheet ws out)
  = Ok out.
Proof.
  intros Hrt Hout.
  destruct (update_gender_tags_inv brand_name size_label gender
              (output_sheet ws out)) as (out2 & Hout2 & _).
  rewrite Hout2. f_equal.
  pose proof (update_gender_tags_written _ _ _ _ _ Hout) as Hw1.
  pose proof (update_gender_tags_written _ _ _ _ _ Hout2) as Hw2.
  simpl in Hw2.
  destruct (decide (out = [])) as [->|Hne].
  { destruct Hw2 as [Hlen _]. rewrite filter_nil in Hlen.
    by destruct out2. }
  pose proof (max_column_ge ws GENDER_COL) as Hwidth.
  set (W := max_column ws GENDER_COL) in *.
  assert (HW2 : max_column (output_sheet ws out) GENDER_COL = W).
  { apply max_column_output_sheet; [done|].
    by eapply rows_written_lengths. }
  rewrite HW2 in Hw2.
  assert (Hh : handles out
    = handles (filter (λ r, matches_criteria brand_name size_label r)
                 (data_rows ws))).
  { eapply rows_written_handles; [|done].
    unfold HANDLE_COL, GENDER_COL in *. lia. }
  set (rows := filter (λ r, matches_criteria brand_name size_label r)
                 (data_rows ws)) in *.
  assert (Hrows_in : ∀ i r, rows !! i = Some r →
            r ∈ data_rows ws ∧ matches_criteria brand_name size_label r = true).
  { intros i r Hr. apply list_elem_of_lookup_2 in Hr.
    apply list_elem_of_filter in Hr as [Hm Hr]. split; [done|].
    by apply Is_true_true. }
  assert (Hfilter : filter (λ r, matches_criteria brand_name size_label r) out
                    = out).
  { apply filter_all, Forall_lookup. intros i r' Hi.
    destruct Hw1 as [Hlen Hr1].
    destruct (rows !! i) as [r|] eqn:Hr.
    - destruct (Hr1 i r Hr) as (g & Hg & _).
      rewrite Hi in Hg. injection Hg as ->.
      destruct (Hrows_in i r Hr) as [Hin Hm].
      rewrite matches_criteria_copy_row; [by rewrite Hm | |].
      + by apply max_column_row.
      + unfold SIZE_COL, GENDER_COL in *. lia.
    - apply lookup_ge_None in Hr. apply lookup_lt_Some in Hi. lia. }
  rewrite Hfilter in Hw2.
  destruct Hw1 as [Hlen1 Hr1], Hw2 as [Hlen2 Hr2].
  apply list_eq. intros i.
  destruct (rows !! i) as [r|] eqn:Hr.
  2: { apply lookup_ge_None in Hr.
       rewrite !lookup_ge_None_2 by lia. done. }
  destruct (Hr1 i r Hr) as (g & Hg & Hv1).
  destruct (Hr2 i _ Hg) as (g2 & Hg2 & Hv2).
  rewrite Hg, Hg2. f_equal.
  rewrite copy_row_copy_row by by left. f_equal.
  rewrite handle_of_copy_row in Hv2
    by (unfold HANDLE_COL, GENDER_COL in *; lia).
  assert (Ht : handles (take i out) = handles (take i rows)).
  { unfold handles in *. by rewrite !fmap_take, Hh. }
  rewrite Ht in Hv2.
  destruct (bool_decide (handle_of r ∈ handles (take i rows))); simpl in *.
  { by subst. }
  destruct Hv1 as (current & Hp & ->).
  destruct Hv2 as (current2 & Hp2 & ->).
  unfold gender_of in Hp2 at 1. fold (gender_of (copy_row W r
    (CStr (format_json_list (update_gender_list current gender).1)))) in Hp2.
  rewrite gender_of_copy_row, bool_decide_eq_true_2 in Hp2 by done.
  destruct (Hrows_in i r Hr) as [Hin _].
  rewrite (parse_format_json_list _ (Hrt r current Hin Hp)) in Hp2.
  injection Hp2 as <-.
  assert (Hidem :
    update_gender_list (update_gender_list current gender).1 gender
    = ((update_gender_list current gender).1, false)).
  { destruct (update_gender_list_cases current gender)
      as [[Hc ->] | [[Hn (opp & Ho & ->)] | [Hn ->]]]; simpl.
    - unfold update_gender_list. by rewrite (proj2 (str_in_true _ _) Hc).
    - unfold update_gender_list.
      assert (Hm : str_in gender
        ((λ g, if json_eq_str g opp then JStr gender else g) <$> current)
        = true).
      { apply str_in_true, list_elem_of_fmap. exists (JStr opp).
        split; [by rewrite json_eq_str_refl | done]. }
      by rewrite Hm.
    - unfold update_gender_list.
      assert (Hm : str_in gender (current ++ [JStr gender]) = true).
      { apply str_in_true, elem_of_app. right.
        by apply list_elem_of_singleton. }
      by rewrite Hm. }
  by rewrite Hidem.
Qed.

(** ** More on the unisex adder *)

Lemma for_each_snoc {S X} (step : S → X → result S) xs x st :
  for_each step (xs ++ [x]) st = (st' ← for_each step xs st; step st' x).
Proof.
  revert st. induction xs as [|x0 xs IH]; intros st; simpl.
  - by destruct (step st x).
  - destruct (step st x0) as [st1|e]; simpl; [apply IH | done].
Qed.

Lemma for_each_Raise {S X} (step : S → X → result S) xs st e :
  for_each step xs st = Raise e →
  ∃ x st0, x ∈ xs ∧ step st0 x = Raise e.
Proof.
  revert st. induction xs as [|x xs IH]; intros st; simpl; [done|].
  destruct (step st x) as [st1|e1] eqn:Hs; simpl.
  - intros Hr. destruct (IH _ Hr) as (x' & st0 & Hin & Hstep).
    exists x', st0. split; [by right | done].
  - intros [= ->]. exists x, st. split; [by left | done].
Qed.

Lemma any_lower_eq_Raise text items e :
  any_lower_eq text items = Raise e →
  e = AttributeError ∧ ∃ g, g ∈ items ∧ is_str g = false.
Proof.
  induction items as [|g items IH]; simpl; [done|].
  destruct g; simpl;
    try (intros [= <-]; split; [done|]; eexists; split; [by left | done]).
  case_bool_decide; [done|]. intros Hr.
  destruct (IH Hr) as (-> & g & Hin & Hg). split; [done|].
  exists g. split; [by right | done].
Qed.

Lemma should_add_unisex_Raise items e :
  should_add_unisex items = Raise e →
  e = AttributeError ∧ (2 ≤ length items)%nat
  ∧ ∃ g, g ∈ items ∧ is_str g = false.
Proof.
  unfold should_add_unisex.
  destruct (decide (length items < 2)%nat) as [Hlen|Hlen].
  { rewrite (bool_decide_eq_true_2 _ Hlen), orb_true_r. done. }
  rewrite (bool_decide_eq_false_2 _ Hlen), orb_false_r.
  case_bool_decide; [done|].
  assert (Hlen2 : (2 ≤ length items)%nat) by lia.
  destruct (any_lower_eq (u "male") items) as [b1|e1] eqn:H1; simpl.
  2: { intros [= ->]. destruct (any_lower_eq_Raise _ _ _ H1) as [-> ?]. done. }
  destruct (any_lower_eq (u "female") items) as [b2|e2] eqn:H2; simpl.
  2: { intros [= ->]. destruct (any_lower_eq_Raise _ _ _ H2) as [-> ?]. done. }
  destruct (any_lower_eq (u "unisex") items) as [b3|e3] eqn:H3; simpl.
  2: { intros [= ->]. destruct (any_lower_eq_Raise _ _ _ H3) as [-> ?]. done. }
  done.
Qed.

(** When the unisex adder aborts with an [AttributeError], the gender cell
    of some row decodes to a list of two or more elements one of which is
    not a text: the completeness test called [lower] on it. *)
Theorem add_unisex_tags_attribute_error (ws : worksheet) :
  add_unisex_tags ws = Raise AttributeError →
  ∃ r items g,
    r ∈ data_rows ws ∧ parse_json_list (gender_of r) = Ok items
    ∧ (2 ≤ length items)%nat ∧ g ∈ items ∧ is_str g = false.
Proof.
  unfold add_unisex_tags.
  destruct (for_each _ _ _) as [st|e0] eqn:Hloop; simpl; [done|].
  intros [= ->].
  apply for_each_Raise in Hloop as (r & [seen out] & Hin & Hstep).
  revert Hstep. unfold add_unisex_tags_row. fold (gender_of r).
  case_bool_decide; [|done].
  destruct (parse_json_list (gender_of r)) as [items|e] eqn:Hp; simpl.
  2: { intros [= ->]. revert Hp. unfold parse_json_list.
       destruct (_ || _); [done|]. unfold try_except, json_loads_cell.
       destruct (gender_of r) as [|s|z]; simpl; try done.
       destruct (json_loads s) as [[]|]; simpl; done. }
  unfold add_unisex_if_complete.
  destruct (should_add_unisex items) as [[|]|e1] eqn:Hs; simpl; try done.
  intros _.
  destruct (should_add_unisex_Raise _ _ Hs) as (_ & Hlen & g & Hg & Hstr).
  by exists r, items, g.
Qed.

Lemma any_lower_eq_app_true text l l' :
  any_lower_eq text l = Ok true → any_lower_eq text (l ++ l') = Ok true.
Proof.
  induction l as [|g l IH]; simpl; [done|].
  destruct (lower_of g); simpl; [|done].
  case_bool_decide; [done | apply IH].
Qed.

Lemma any_lower_eq_app_false text l l' :
  any_lower_eq text l = Ok false →
  any_lower_eq text (l ++ l') = any_lower_eq text l'.
Proof.
  induction l as [|g l IH]; simpl; [done|].
  destruct (lower_of g); simpl; [|done].
  case_bool_decide; [done | apply IH].
Qed.

Lemma add_unisex_if_complete_stable current updated :
  str_lower (u "Unisex") = u "unisex" →
  add_unisex_if_complete current = Ok updated →
  add_unisex_if_complete updated = Ok updated.
Proof.
  intros Hlower. unfold add_unisex_if_complete.
  destruct (should_add_unisex current) as [[|]|e] eqn:Hs; simpl;
    [| by intros [= <-]; rewrite Hs | done].
  intros [= <-]. revert Hs. unfold should_add_unisex.
  destruct (decide (length current < 2)%nat) as [Hlen|Hlen].
  { rewrite (bool_decide_eq_true_2 _ Hlen), orb_true_r. done. }
  rewrite (bool_decide_eq_false_2 _ Hlen), orb_false_r.
  case_bool_decide; [done|].
  destruct (any_lower_eq (u "male") current) as [b1|] eqn:H1; simpl; [|done].
  destruct (any_lower_eq (u "female") current) as [b2|] eqn:H2; simpl; [|done].
  destruct (any_lower_eq (u "unisex") current) as [b3|] eqn:H3; simpl; [|done].
  intros [= Hb]. apply andb_true_iff in Hb as [Hb Hb3].
  apply andb_true_iff in Hb as [-> ->]. apply negb_true_iff in Hb3 as ->.
  rewrite bool_decide_eq_false_2 by by destruct current.
  rewrite bool_decide_eq_false_2 by (rewrite length_app; simpl; lia).
  cbn [orb].
  rewrite (any_lower_eq_app_true _ _ _ H1), (any_lower_eq_app_true _ _ _ H2).
  rewrite (any_lower_eq_app_false _ _ _ H3). simpl.
  rewrite Hlower. rewrite bool_decide_eq_true_2 by done. done.
Qed.

(** Running the unisex adder again on its own output writes the same sheet,
    provided "Unisex" lower-cases to "unisex" and the runtime's decoder
    reads back the lists the first pass encoded. *)
Theorem add_unisex_tags_rerun (ws : worksheet) (out : list row) :
  str_lower (u "Unisex") = u "unisex" →
  (∀ r current updated,
     r ∈ data_rows ws → parse_json_list (gender_of r) = Ok current →
     add_unisex_if_complete current = Ok updated →
     json_loads (format_json_list updated) = Some (JList updated)) →
  add_unisex_tags ws = Ok out →
  add_unisex_tags (output_sheet ws out) = Ok out.
Proof.
  intros Hlower Hrt Hout.
  pose proof (add_unisex_tags_written _ _ Hout) as Hw1.
  pose proof (max_column_ge ws GENDER_COL) as Hwidth.
  set (W := max_column ws GENDER_COL) in *.
  assert (HW : (HANDLE_COL ≤ W)%nat)
    by (unfold HANDLE_COL, GENDER_COL in *; lia).
  pose proof (unisex_rows_written_handles _ _ _ HW Hw1) as Hh.
  destruct Hw1 as [Hlen Hrows].
  destruct (decide (out = [])) as [->|Hne]; [done|].
  assert (HW2 : max_column (output_sheet ws out) GENDER_COL = W).
  { apply max_column_output_sheet; [done|].
    apply Forall_lookup. intros i r' Hi.
    destruct (data_rows ws !! i) as [r|] eqn:Hr.
    - destruct (Hrows i r Hr) as (g & Hg & _).
      rewrite Hi in Hg. injection Hg as ->. apply length_copy_row.
    - apply lookup_ge_None in Hr. apply lookup_lt_Some in Hi. lia. }
  unfold add_unisex_tags. simpl. rewrite HW2.
  cut (∀ n, (n ≤ length out)%nat →
         ∃ seen, for_each (add_unisex_tags_row W) (take n out) (∅, [])
                 = Ok (seen, take n out)
           ∧ ∀ h, h ∈ seen ↔ h ∈ handles (take n out)).
  { intros Hcut. destruct (Hcut (length out)) as (seen & Hloop & _); [done|].
    rewrite firstn_all in Hloop. by rewrite Hloop. }
  induction n as [|n IH]; intros Hn.
  { exists ∅. split; [done|]. simpl. unfold handles. set_solver. }
  destruct IH as (seen & Hloop & Hseen); [lia|].
  destruct (lookup_lt_is_Some_2 out n) as [r' Hr']; [lia|].
  rewrite (take_S_r _ _ _ Hr'), for_each_snoc, Hloop. simpl.
  destruct (data_rows ws !! n) as [r|] eqn:Hr.
  2: { apply lookup_ge_None in Hr. lia. }
  destruct (Hrows n r Hr) as (g & Hg & Hv).
  rewrite Hr' in Hg. injection Hg as ->.
  assert (Ht : handles (take n out) = handles (take n (data_rows ws))).
  { unfold handles in *. by rewrite !fmap_take, Hh. }
  unfold add_unisex_tags_row.
  fold (handle_of (copy_row W r g)). fold (gender_of (copy_row W r g)).
  rewrite handle_of_copy_row by done.
  rewrite gender_of_copy_row, (bool_decide_eq_true_2 _ Hwidth).
  assert (Hs : ∀ h, h ∈ {[handle_of r]} ∪ seen
                    ↔ h ∈ handles (take n out ++ [copy_row W r g])).
  { intros h. rewrite handles_snoc, handle_of_copy_row by done.
    rewrite elem_of_app, list_elem_of_singleton.
    rewrite elem_of_union, elem_of_singleton, Hseen. tauto. }
  destruct (decide (handle_of r ∈ handles (take n (data_rows ws))))
    as [Hearlier|Hfirst].
  - rewrite (bool_decide_eq_true_2 _ Hearlier) in Hv. simpl in Hv. subst g.
    rewrite bool_decide_eq_false_2 by (rewrite Hseen, Ht; tauto).
    exists seen. split.
    + by rewrite copy_row_copy_row by by right.
    + intros h. rewrite <- Hs. rewrite <- Ht, <- Hseen in Hearlier. set_solver.
  - rewrite (bool_decide_eq_false_2 _ Hfirst) in Hv.
    destruct Hv as (current & updated & Hp & Ha & ->).
    rewrite bool_decide_eq_true_2 by by rewrite Hseen, Ht.
    assert (Hin : r ∈ data_rows ws) by by eapply list_elem_of_lookup_2.
    case_bool_decide as Hnil.
    + subst updated. simpl.
      eexists. split; [|exact Hs].
      by rewrite copy_row_copy_row by by right.
    + rewrite (parse_format_json_list _ (Hrt r current updated Hin Hp Ha)).
      simpl. rewrite (add_unisex_if_complete_stable _ _ Hlower Ha). simpl.
      eexists. split; [|exact Hs].
      rewrite (bool_decide_eq_false_2 _ Hnil).
      by rewrite copy_row_copy_row by by left.
Qed.

(** The unisex adder keeps every row: when it returns, its output holds one
    row for each input row, in input order, and every cell of an output row
    but the gender cell is the cell of its input row. *)
Theorem add_unisex_tags_keeps_rows (ws : worksheet) (out : list row) :
  add_unisex_tags ws = Ok out →
  length out = length (data_rows ws)
  ∧ ∀ i r, data_rows ws !! i = Some r →
      ∃ r', out !! i = Some r'
        ∧ ∀ column, (1 ≤ column)%nat → column ≠ GENDER_COL →
            cell_value r' column = cell_value r column.
Proof.
  intros Hout. destruct (add_unisex_tags_written _ _ Hout) as [Hlen Hrows].
  split; [done|]. intros i r Hr.
  destruct (Hrows i r Hr) as (g & Hi & _).
  eexists. split; [done|]. intros column Hc Hg.
  apply copy_row_frame; [|done|done].
  apply max_column_row. by eapply list_elem_of_lookup_2.
Qed.

(** ** More on the three-way split *)

Lemma categorize_product_genders size_tags cat genders :
  categorize_product size_tags = (Some cat, genders) →
  genders = category_genders cat.
Proof.
  unfold categorize_product. repeat case_match; by intros [= <- <-].
Qed.

Lemma split_happy_socks_row_written width pre st r :
  (HANDLE_COL ≤ width)%nat →
  (∀ cat,
     (∀ h, h ∈ split_seen st cat ↔
           h ∈ handles (filter (λ r, category_of r = Some cat) pre))
     ∧ rows_written (split_gender_value cat) width
         (filter (λ r, category_of r = Some cat) pre) (split_output st cat)) →
  ∀ cat,
    (∀ h, h ∈ split_seen (split_happy_socks_row width st r) cat ↔
          h ∈ handles (filter (λ r, category_of r = Some cat) (pre ++ [r])))
    ∧ rows_written (split_gender_value cat) width
        (filter (λ r, category_of r = Some cat) (pre ++ [r]))
        (split_output (split_happy_socks_row width st r) cat).
Proof.
  intros Hw Hinv cat. destruct (Hinv cat) as [Hseen Hrows].
  rewrite filter_app.
  assert (Hskip : category_of r ≠ Some cat →
    filter (λ r, category_of r = Some cat) pre
      ++ filter (λ r, category_of r = Some cat) [r]
    = filter (λ r, category_of r = Some cat) pre).
  { intros Hne. rewrite filter_cons_False by done.
    by rewrite filter_nil, app_nil_r. }
  unfold split_happy_socks_row.
  destruct (cell_eq_str (cell_value r BRAND_COL) (u "Happy Socks")) eqn:Hb;
    simpl.
  2: { rewrite Hskip; [done|]. unfold category_of. by rewrite Hb. }
  destruct (categorize_product _) as [[c|] genders] eqn:Hcat.
  2: { rewrite Hskip; [done|]. unfold category_of. by rewrite Hb, Hcat. }
  assert (Hcr : category_of r = Some c)
    by (unfold category_of; by rewrite Hb, Hcat).
  apply categorize_product_genders in Hcat. subst genders.
  fold (handle_of r). simpl.
  destruct (decide (c = cat)) as [->|Hc].
  2: { rewrite Hskip by congruence.
       rewrite fn_lookup_insert_ne by done.
       case_bool_decide; [rewrite fn_lookup_insert_ne by done|]; done. }
  rewrite filter_cons_True by done. rewrite filter_nil.
  rewrite fn_lookup_insert.
  set (rows := filter (λ r, category_of r = Some cat) pre) in *.
  assert (Hs : ∀ h, h ∈ {[handle_of r]} ∪ split_seen st cat
                    ↔ h ∈ handles (rows ++ [r])).
  { intros h. rewrite handles_snoc, elem_of_app, list_elem_of_singleton.
    rewrite elem_of_union, elem_of_singleton, Hseen. tauto. }
  case_bool_decide as Hfirst.
  - rewrite fn_lookup_insert. split; [done|].
    apply rows_written_snoc; [done|].
    rewrite bool_decide_eq_false_2 by by rewrite <- Hseen. done.
  - split.
    + intros h. rewrite <- Hs. set_solver.
    + apply rows_written_snoc; [done|].
      rewrite bool_decide_eq_true_2 by by rewrite <- Hseen. done.
Qed.

Lemma split_happy_socks_written ws cat :
  rows_written (split_gender_value cat) (max_column ws SIZE_COL)
    (filter (λ r, category_of r = Some cat) (data_rows ws))
    (split_happy_socks ws cat).
Proof.
  unfold split_happy_socks.
  assert (Hw : (HANDLE_COL ≤ max_column ws SIZE_COL)%nat).
  { pose proof (max_column_ge ws SIZE_COL).
    unfold HANDLE_COL, SIZE_COL in *. lia. }
  cut (∀ rows c,
    (∀ h, h ∈ split_seen
                (foldl (split_happy_socks_row (max_column ws SIZE_COL))
                   {| split_seen := λ _, ∅; split_output := λ _, [] |} rows) c
          ↔ h ∈ handles (filter (λ r, category_of r = Some c) rows))
    ∧ rows_written (split_gender_value c) (max_column ws SIZE_COL)
        (filter (λ r, category_of r = Some c) rows)
        (split_output
           (foldl (split_happy_socks_row (max_column ws SIZE_COL))
              {| split_seen := λ _, ∅; split_output := λ _, [] |} rows) c)).
  { intros Hcut. apply Hcut. }
  induction rows as [|r rows IH] using rev_ind; intros c.
  - simpl. split; [unfold handles; set_solver | apply rows_written_nil].
  - rewrite foldl_app. simpl.
    by apply split_happy_socks_row_written.
Qed.

(** The splitter sends every Happy Socks row whose size tags name a category
    to the sheet of that category and to no other, in input order, copying
    every cell but the gender cell; the three sheets together hold as many
    rows as the input has such rows; and a gender cell of a sheet is either
    blank or the JSON text of the gender list of that sheet's category. *)
Theorem split_happy_socks_partitions (ws : worksheet) :
  (∀ cat,
     length (split_happy_socks ws cat)
     = length (filter (λ r, category_of r = Some cat) (data_rows ws))
     ∧ (∀ i r,
          filter (λ r, category_of r = Some cat) (data_rows ws) !! i = Some r →
          ∃ r', split_happy_socks ws cat !! i = Some r'
            ∧ ∀ column, (1 ≤ column)%nat → column ≠ GENDER_COL →
                cell_value r' column = cell_value r column)
     ∧ Forall (λ r',
         gender_of r' = CNone
         ∨ gender_of r'
           = CStr (format_json_list (JStr <$> category_genders cat)))
         (split_happy_socks ws cat))
  ∧ (length (split_happy_socks ws female_only)
     + length (split_happy_socks ws male_only)
     + length (split_happy_socks ws unisex)
     = length (filter (λ r, is_Some (category_of r)) (data_rows ws)))%nat.
Proof.
  split.
  - intros cat. destruct (split_happy_socks_written ws cat) as [Hlen Hrows].
    split; [done|]. split.
    + intros i r Hr. destruct (Hrows i r Hr) as (g & Hi & _).
      eexists. split; [done|]. intros column Hc Hg.
      apply copy_row_frame; [|done|done].
      apply max_column_row. apply list_elem_of_lookup_2 in Hr.
      by apply list_elem_of_filter in Hr as [_ Hr].
    + apply Forall_lookup. intros i r' Hi.
      destruct (filter (λ r, category_of r = Some cat) (data_rows ws) !! i)
        as [r|] eqn:Hr.
      * destruct (Hrows i r Hr) as (g & Hg & Hv).
        rewrite Hi in Hg. injection Hg as ->.
        rewrite gender_of_copy_row. unfold split_gender_value in Hv. subst g.
        destruct (bool_decide (GENDER_COL ≤ max_column ws SIZE_COL)%nat);
          [|by left].
        destruct (bool_decide _); [by left | by right].
      * apply lookup_ge_None in Hr. apply lookup_lt_Some in Hi. lia.
  - destruct (split_happy_socks_written ws female_only) as [-> _].
    destruct (split_happy_socks_written ws male_only) as [-> _].
    destruct (split_happy_socks_written ws unisex) as [-> _].
    induction (data_rows ws) as [|r rows IH]; [done|].
    rewrite !filter_cons.
    destruct (category_of r) as [[| |]|] eqn:Hc;
      repeat (case_decide; simplify_eq; try (by exfalso; eauto));
      simpl; try lia.
    all: try (exfalso; match goal with H : ¬ is_Some _ |- _ => apply H end;
              by eexists).
    all: match goal with H : is_Some None |- _ => by destruct H end.
Qed.

(** ** More on handle matching *)

Lemma for_each_Ok_iff {S X} (step : S → X → result S) (Q : X → Prop) xs st :
  (∀ st x, (∃ st', step st x = Ok st') ↔ Q x) →
  (∃ st', for_each step xs st = Ok st') ↔ Forall Q xs.
Proof.
  intros Hstep. revert st.
  induction xs as [|x xs IH]; intros st; simpl.
  - split; [constructor | by exists st].
  - split.
    + intros [st' Hl]. destruct (step st x) as [st1|e] eqn:Hs; [|done].
      constructor; [apply (Hstep st); by exists st1 | eapply IH; eauto].
    + intros Hall. apply Forall_cons in Hall as [Hx Hall].
      apply (Hstep st) in Hx as [st1 ->]. simpl. by apply IH.
Qed.

Lemma column_b_Ok r : (∃ value, column_b r = Ok value) ↔ (2 ≤ length r)%nat.
Proof.
  unfold column_b. destruct (r !! 1%nat) as [value|] eqn:Hr.
  - apply lookup_lt_Some in Hr. split; [lia | by eexists].
  - apply lookup_ge_None in Hr. split; [by intros [? ?] | lia].
Qed.

Lemma extract_handles_row_Ok st r :
  (∃ st', extract_handles_row st r = Ok st') ↔ (2 ≤ length r)%nat.
Proof.
  rewrite <- column_b_Ok. unfold extract_handles_row. destruct st as [hs m].
  destruct (column_b r) as [value|e]; simpl.
  - split; [by eexists|]. intros _. repeat case_bool_decide; by eexists.
  - split; by intros [? ?].
Qed.

Lemma extract_matching_row_Ok handles handle_mapping out r :
  (∃ out', extract_matching_row handles handle_mapping out r = Ok out')
  ↔ (2 ≤ length r)%nat.
Proof.
  rewrite <- column_b_Ok. unfold extract_matching_row.
  destruct (column_b r) as [value|e]; simpl.
  - split; [by eexists|]. intros _. repeat case_bool_decide; by eexists.
  - split; by intros [? ?].
Qed.

(** The segmenter's two scans fail on a sheet with a row of fewer than two
    cells, with an [IndexError], and on no other sheet. *)
Theorem segmenter_index_errors (reference master : list row)
    (handles : gset pystr) (handle_mapping : gmap pystr pystr) :
  ((∃ res, extract_handles_from_reference reference = Ok res)
   ↔ Forall (λ r, (2 ≤ length r)%nat) reference)
  ∧ ((∃ out, extract_matching_rows master handles handle_mapping = Ok out)
     ↔ Forall (λ r, (2 ≤ length r)%nat) master)
  ∧ (∀ e, extract_handles_from_reference reference = Raise e → e = IndexError)
  ∧ (∀ e, extract_matching_rows master handles handle_mapping = Raise e →
          e = IndexError).
Proof.
  split; [|split; [|split]].
  - apply for_each_Ok_iff. intros st r. apply extract_handles_row_Ok.
  - apply for_each_Ok_iff. intros st r. apply extract_matching_row_Ok.
  - intros e Hr. apply for_each_Raise in Hr as (r & [hs m] & _ & Hstep).
    revert Hstep. unfold extract_handles_row, column_b.
    destruct (r !! 1%nat); simpl; [|by intros [= <-]].
    by repeat case_bool_decide.
  - intros e Hr. apply for_each_Raise in Hr as (r & out & _ & Hstep).
    revert Hstep. unfold extract_matching_row, column_b.
    destruct (r !! 1%nat); simpl; [|by intros [= <-]].
    by repeat case_bool_decide.
Qed.

Lemma extract_handles_from_reference_spec reference handles handle_mapping :
  extract_handles_from_reference reference = Ok (handles, handle_mapping) →
  (∀ key, key ∈ handles ↔ is_Some (handle_mapping !! key))
  ∧ (∀ key, handle_mapping !! key =
       last (filter (λ s, normalize_handle (CStr s) = key)
               (reference_handles reference))).
Proof.
  intros Href. unfold extract_handles_from_reference in Href.
  apply (for_each_prefix_inv _
    (λ pre st, (∀ key, key ∈ st.1 ↔ is_Some (st.2 !! key))
       ∧ (∀ key, st.2 !! key =
            last (filter (λ s, normalize_handle (CStr s) = key)
                    (reference_handles pre))))) in Href; [done | |].
  - simpl. split.
    + intros key. rewrite lookup_empty. split; [set_solver|].
      by intros [? ?].
    + intros key. by rewrite lookup_empty.
  - intros pre r st0 st1 [Hdom Hlast] Hstep.
    by eapply extract_handles_row_spec.
Qed.

Lemma extract_matching_row_sublist handles handle_mapping master_pre out r out' :
  (∃ kept, kept `sublist_of` master_pre
     ∧ Forall2 (λ r row, ∃ original, row = <[1%nat := CStr original]> r)
         kept out) →
  extract_matching_row handles handle_mapping out r = Ok out' →
  ∃ kept, kept `sublist_of` (master_pre ++ [r])
    ∧ Forall2 (λ r row, ∃ original, row = <[1%nat := CStr original]> r)
        kept out'.
Proof.
  intros (kept & Hsub & Hall). unfold extract_matching_row.
  destruct (column_b r); simpl; [|done].
  assert (Hskip : ∃ kept, kept `sublist_of` (master_pre ++ [r])
    ∧ Forall2 (λ r row, ∃ original, row = <[1%nat := CStr original]> r)
        kept out).
  { exists kept. split; [|done]. by apply sublist_inserts_r. }
  case_bool_decide; [|by intros [= <-]].
  case_bool_decide; [|by intros [= <-]].
  intros [= <-]. exists (kept ++ [r]). split.
  - by apply sublist_app.
  - apply Forall2_app; [done|]. constructor; [by eexists | constructor].
Qed.

(** What the segmenter writes: every output row is a master row with only
    its handle cell replaced, the output rows stand in master order, and the
    text in the handle cell is one of the handles of the reference sheet (as
    stripped there) whose key is the key of the master row's handle. *)
Theorem segment_writes_reference_handles (reference master out : list row) :
  segment reference master = Ok out →
  (∀ row, row ∈ out → ∃ r value original,
     r ∈ master ∧ r !! 1%nat = Some value ∧ value ≠ CNone
     ∧ original ∈ reference_handles reference
     ∧ normalize_handle (CStr original)
       = normalize_handle (CStr (strip (str_of_cell value)))
     ∧ row = <[1%nat := CStr original]> r)
  ∧ ∃ kept, kept `sublist_of` master
      ∧ Forall2 (λ r row, ∃ original, row = <[1%nat := CStr original]> r)
          kept out.
Proof.
  unfold segment.
  destruct (extract_handles_from_reference reference)
    as [[handles handle_mapping]|e] eqn:Href; simpl; [|done].
  intros Hm.
  destruct (extract_handles_from_reference_spec _ _ _ Href) as [Hdom Hlast].
  unfold extract_matching_rows in Hm. split.
  - intros orow Horow.
    assert (Hsound : ∀ row, row ∈ out → ∃ r value original,
      r ∈ master ∧ r !! 1%nat = Some value ∧ value ≠ CNone
      ∧ handle_mapping !! normalize_handle (CStr (strip (str_of_cell value)))
        = Some original
      ∧ row = <[1%nat := CStr original]> r).
    { refine (for_each_prefix_inv _
        (λ (pre out : list row), ∀ row, row ∈ out → ∃ r value original,
           r ∈ pre ∧ r !! 1%nat = Some value ∧ value ≠ CNone
           ∧ handle_mapping
               !! normalize_handle (CStr (strip (str_of_cell value)))
             = Some original
           ∧ row = <[1%nat := CStr original]> r) master [] out _ _ Hm).
      - intros row0 Hrow0. by apply elem_of_nil in Hrow0.
      - intros pre r out0 out1 Hpre Hstep.
        by eapply extract_matching_row_spec. }
    destruct (Hsound orow Horow)
      as (r & value & original & Hr & Hb & Hv & Ho & ->).
    exists r, value, original. repeat split; try done.
    + rewrite Hlast in Ho. apply last_Some in Ho as [l' Ho].
      assert (Hin : original ∈ filter
        (λ s, normalize_handle (CStr s)
              = normalize_handle (CStr (strip (str_of_cell value))))
        (reference_handles reference)).
      { rewrite Ho. apply elem_of_app. right. by apply list_elem_of_singleton. }
      by apply list_elem_of_filter in Hin as [_ Hin].
    + rewrite Hlast in Ho. apply last_Some in Ho as [l' Ho].
      assert (Hin : original ∈ filter
        (λ s, normalize_handle (CStr s)
              = normalize_handle (CStr (strip (str_of_cell value))))
        (reference_handles reference)).
      { rewrite Ho. apply elem_of_app. right. by apply list_elem_of_singleton. }
      by apply list_elem_of_filter in Hin as [Hin _].
  - refine (for_each_prefix_inv _
      (λ (pre out : list row), ∃ kept, kept `sublist_of` pre
         ∧ Forall2 (λ r row, ∃ original, row = <[1%nat := CStr original]> r)
             kept out) master [] out _ _ Hm).
    + exists []. split; [done | constructor].
    + intros pre r out0 out1 Hpre Hstep.
      by eapply extract_matching_row_sublist.
Qed.

Lemma remove_symbols_insert (x y : pystr) (symbol : N) :
  symbol ∈ problematic_symbols →
  foldl (λ acc symbol, remove_char symbol acc) (x ++ symbol :: y)
    problematic_symbols
  = foldl (λ acc symbol, remove_char symbol acc) (x ++ y) problematic_symbols.
Proof.
  unfold problematic_symbols, remove_char. intros Hin. simpl.
  repeat (apply elem_of_cons in Hin as [->|Hin]);
    [| | | |by apply elem_of_nil in Hin];
    repeat (rewrite filter_app, filter_cons; case_decide; [|done]);
    rewrite filter_app, filter_cons; (case_decide; [done|]);
    by rewrite <- !filter_app.
Qed.

(** A trade mark, registered, copyright or service mark sign anywhere in a
    handle does not change its key, when lower-casing leaves the sign in
    place (it does for text that lower-cases one character at a time). *)
Theorem normalize_handle_ignores_symbols (a b : pystr) (symbol : N) :
  symbol ∈ problematic_symbols →
  a ++ b ≠ [] →
  str_lower (a ++ symbol :: b) = str_lower a ++ symbol :: str_lower b →
  str_lower (a ++ b) = str_lower a ++ str_lower b →
  normalize_handle (CStr (a ++ symbol :: b)) = normalize_handle (CStr (a ++ b)).
Proof.
  intros Hin Hne Hl1 Hl2. unfold normalize_handle.
  assert (Hf1 : falsy (CStr (a ++ symbol :: b)) = false).
  { apply bool_decide_eq_false_2. by destruct a. }
  assert (Hf2 : falsy (CStr (a ++ b)) = false).
  { by apply bool_decide_eq_false_2. }
  rewrite Hf1, Hf2. cbn [str_of_cell]. rewrite Hl1, Hl2.
  by rewrite remove_symbols_insert.
Qed.

(** ** The size tag list *)

Lemma str_lt_cons x a y b :
  str_lt (x :: a) (y :: b) = true ↔ x < y ∨ (x = y ∧ str_lt a b = true).
Proof.
  simpl. by rewrite orb_true_iff, andb_true_iff, N.ltb_lt, N.eqb_eq.
Qed.

Lemma str_lt_irrefl a : str_lt a a = false.
Proof.
  induction a as [|x a IH]; [done|].
  apply not_true_is_false. rewrite str_lt_cons, IH. intros [?|[_ ?]]; [lia|done].
Qed.

Lemma str_lt_trans a b c :
  str_lt a b = true → str_lt b c = true → str_lt a c = true.
Proof.
  revert b c. induction a as [|x a IH]; intros [|y b] [|z c]; try done.
  rewrite !str_lt_cons. intros [?|[-> Hab]] [?|[-> Hbc]].
  - left; lia.
  - by left.
  - by left.
  - right. split; [done|]. by eapply IH.
Qed.

Lemma str_lt_trichotomy a b :
  str_lt a b = true ∨ a = b ∨ str_lt b a = true.
Proof.
  revert b. induction a as [|x a IH]; intros [|y b];
    [by right; left | by left | by right; right |].
  rewrite !str_lt_cons.
  destruct (N.lt_trichotomy x y) as [?|[->|?]]; [by auto | | by auto].
  destruct (IH b) as [?|[->|?]]; auto.
Qed.

Lemma str_lt_asym a b : str_lt a b = true → str_lt b a = false.
Proof.
  intros Hab. apply not_true_is_false. intros Hba.
  pose proof (str_lt_trans _ _ _ Hab Hba) as Haa.
  by rewrite str_lt_irrefl in Haa.
Qed.

#[local] Instance str_le_total : Total str_le.
Proof.
  intros a b. unfold str_le.
  destruct (str_lt b a) eqn:Hba; [right; by apply str_lt_asym | by left].
Qed.

#[local] Instance str_le_trans : Transitive str_le.
Proof.
  intros a b c. unfold str_le. intros Hba Hcb.
  apply not_true_is_false. intros Hca.
  destruct (str_lt_trichotomy a b) as [Hab|[->|Hab]].
  - pose proof (str_lt_trans _ _ _ Hca Hab). congruence.
  - congruence.
  - congruence.
Qed.

Lemma StronglySorted_str_lt (l : list pystr) :
  StronglySorted str_le l → NoDup l →
  StronglySorted (λ a b, str_lt a b = true) l.
Proof.
  induction 1 as [|a l Hs IH Hall]; intros Hnd; [constructor|].
  apply NoDup_cons in Hnd as [Hnotin Hnd].
  constructor; [by apply IH|].
  apply Forall_forall. intros y Hy.
  rewrite Forall_forall in Hall. specialize (Hall y Hy). unfold str_le in Hall.
  destruct (str_lt_trichotomy a y) as [?|[->|?]]; [done|done|congruence].
Qed.

Lemma sorted_spec (xs : list pystr) :
  NoDup xs →
  StronglySorted (λ a b, str_lt a b = true) (sorted xs)
  ∧ sorted xs ≡ₚ xs.
Proof.
  intros Hnd. unfold sorted.
  pose proof (merge_sort_Permutation str_le xs) as Hperm.
  split; [|done].
  apply StronglySorted_str_lt.
  - apply (StronglySorted_merge_sort str_le).
  - by rewrite Hperm.
Qed.

Lemma extract_size_tags_row_spec (pre : list row) size_tags r size_tags' :
  (∀ tag, tag ∈ size_tags ↔ ∃ r, r ∈ pre ∧ size_tag_of_row r tag) →
  extract_size_tags_row size_tags r = Ok size_tags' →
  ∀ tag, tag ∈ size_tags' ↔ ∃ r0, r0 ∈ pre ++ [r] ∧ size_tag_of_row r0 tag.
Proof.
  intros Hinv. unfold extract_size_tags_row, row_index.
  destruct (r !! 7%nat) as [value|] eqn:Hr; simpl; [|done].
  assert (Hsplit : ∀ tag, (∃ r0, r0 ∈ pre ++ [r] ∧ size_tag_of_row r0 tag)
    ↔ tag ∈ size_tags ∨ size_tag_of_row r tag).
  { intros tag. rewrite Hinv. split.
    - intros (r0 & Hin & Htag). apply elem_of_app in Hin as [Hin|Hin].
      + left. by exists r0.
      + apply list_elem_of_singleton in Hin as ->. by right.
    - intros [(r0 & Hin & Htag)|Htag].
      + exists r0. split; [apply elem_of_app; by left | done].
      + exists r. split; [|done]. apply elem_of_app. right.
        by apply list_elem_of_singleton. }
  assert (Hnone : (∀ tag, ¬ size_tag_of_row r tag) →
    ∀ tag, tag ∈ size_tags ↔ ∃ r0, r0 ∈ pre ++ [r] ∧ size_tag_of_row r0 tag).
  { intros Hno tag. rewrite Hsplit. split; [by left|].
    intros [?|Htag]; [done|]. by apply Hno in Htag. }
  case_bool_decide as Hv.
  - case_bool_decide as Hs.
    + case_bool_decide as Hf.
      * intros [= <-] tag. rewrite Hsplit, elem_of_union, elem_of_list_to_set.
        rewrite list_elem_of_filter. unfold size_tag_of_row. rewrite Hr.
        split; (intros [?|Htag]; [by left | right]).
        -- exists value. tauto.
        -- destruct Htag as (value' & [= <-] & _ & ? & ?). tauto.
      * intros [= <-]. apply Hnone.
        intros tag (value' & Hr' & _ & Hin & Hsw).
        rewrite Hr in Hr'. injection Hr' as <-.
        assert (Hin' : tag ∈ filter (λ tag, startswith tag (u "size_") = true)
          (strip <$> split_on COMMA (strip (str_of_cell value)))).
        { by apply list_elem_of_filter. }
        rewrite Hf in Hin'. by apply elem_of_nil in Hin'.
    + intros [= <-]. apply Hnone.
      intros tag (value' & Hr' & _ & Hin & Hsw).
      rewrite Hr in Hr'. injection Hr' as <-.
      rewrite Hs in Hin. simpl in Hin.
      apply list_elem_of_singleton in Hin as ->. by vm_compute in Hsw.
  - intros [= <-]. apply Hnone.
    intros tag (value' & Hr' & Hv' & _). rewrite Hr in Hr'.
    injection Hr' as <-. by apply Hv'.
Qed.

(** The size tags come out in strictly ascending order (so without
    duplicates), and they are the stripped pieces of the column H cells that
    start with [size_], taken over all rows. *)
Theorem extract_size_tags_sorted_unique (rows : list row) (tags : list pystr) :
  extract_size_tags rows = Ok tags →
  StronglySorted (λ a b, str_lt a b = true) tags
  ∧ NoDup tags
  ∧ ∀ tag, tag ∈ tags ↔ ∃ r, r ∈ rows ∧ size_tag_of_row r tag.
Proof.
  unfold extract_size_tags.
  destruct (for_each extract_size_tags_row rows ∅) as [size_tags|e] eqn:Hloop;
    simpl; [|done].
  intros [= <-].
  destruct (sorted_spec (elements size_tags)) as [Hs Hperm];
    [apply NoDup_elements|].
  split; [done|]. split; [rewrite Hperm; apply NoDup_elements|].
  intros tag. rewrite Hperm, elem_of_elements.
  revert tag.
  refine (for_each_prefix_inv _
    (λ (pre : list row) (size_tags : gset pystr),
       ∀ tag, tag ∈ size_tags ↔ ∃ r, r ∈ pre ∧ size_tag_of_row r tag)
    rows ∅ size_tags _ _ Hloop).
  - intros tag. split; [set_solver|].
    intros (r & Hin & _). by apply elem_of_nil in Hin.
  - intros pre r st0 st1 Hpre Hstep. by eapply extract_size_tags_row_spec.
Qed.

(** The size tag scan fails on a sheet with a row of fewer than eight cells,
    with an [IndexError], and on no other sheet. *)
Theorem extract_size_tags_index_error (rows : list row) :
  ((∃ tags, extract_size_tags rows = Ok tags)
   ↔ Forall (λ r, (8 ≤ length r)%nat) rows)
  ∧ (∀ e, extract_size_tags rows = Raise e → e = IndexError).
Proof.
  unfold extract_size_tags. split.
  - rewrite <- (for_each_Ok_iff extract_size_tags_row
      (λ r, (8 ≤ length r)%nat) rows ∅).
    + split.
      * intros [tags Ht].
        destruct (for_each extract_size_tags_row rows ∅) as [st|e];
          [by exists st | done].
      * intros [st ->]. simpl. by eexists.
    + intros st r. unfold extract_size_tags_row, row_index.
      destruct (r !! 7%nat) as [value|] eqn:Hr; simpl.
      * apply lookup_lt_Some in Hr. split; [lia|]. intros _.
        repeat case_bool_decide; by eexists.
      * apply lookup_ge_None in Hr. split; [by intros [? ?] | lia].
  - intros e.
    destruct (for_each extract_size_tags_row rows ∅) as [st|e'] eqn:Hloop;
      simpl; [done|].
    intros [= <-]. apply for_each_Raise in Hloop as (r & st & _ & Hstep).
    revert Hstep. unfold extract_size_tags_row, row_index.
    destruct (r !! 7%nat); simpl; [|by intros [= <-]].
    by repeat case_bool_decide.
Qed.

(** ** The handle search *)

Lemma startswith_spec s prefix :
  startswith s prefix = true ↔ ∃ l2, s = prefix ++ l2.
Proof.
  unfold startswith. rewrite bool_decide_eq_true. split.
  - intros Ht. exists (drop (length prefix) s).
    rewrite <- Ht at 1. by rewrite take_drop.
  - intros [l2 ->]. by rewrite take_app_length.
Qed.

Lemma str_contains_spec s needle :
  str_contains s needle = true ↔ ∃ l1 l2, s = l1 ++ needle ++ l2.
Proof.
  induction s as [|c s IH]; simpl; rewrite orb_true_iff, startswith_spec.
  - split.
    + intros [[l2 Hs]|?]; [|done]. by exists [], l2.
    + intros (l1 & l2 & Hs). left. exists l2.
      destruct l1; [done | discriminate].
  - rewrite IH. split.
    + intros [[l2 Hs]|(l1 & l2 & ->)]; [by exists [], l2|].
      by exists (c :: l1), l2.
    + intros (l1 & l2 & Hs). destruct l1 as [|c' l1].
      * left. by exists l2.
      * right. injection Hs as -> ->. by exists l1, l2.
Qed.

Lemma search_terms_loop_spec search_terms cell_d_value cell_d_str r out :
  search_terms_loop search_terms cell_d_value cell_d_str r out =
  if existsb (λ term, str_contains (str_lower cell_d_str) (str_lower term))
       search_terms
  then cell_w_value ← row_index r 22; Ok (out ++ [[cell_d_value; cell_w_value]])
  else Ok out.
Proof.
  induction search_terms as [|term rest IH]; simpl; [done|].
  by destruct (str_contains (str_lower cell_d_str) (str_lower term)).
Qed.

Lemma extract_handles_step_spec search_terms out r :
  extract_handles_step search_terms out r =
  match r !! 3%nat with
  | None => Raise IndexError
  | Some _ =>
      if is_match search_terms r then
        match r !! 22%nat with
        | None => Raise IndexError
        | Some _ => Ok (out ++ [handle_pair r])
        end
      else Ok out
  end.
Proof.
  unfold extract_handles_step, is_match, handle_pair, row_index.
  destruct (r !! 3%nat) as [value|]; simpl; [|done].
  rewrite search_terms_loop_spec.
  destruct (bool_decide (value ≠ CNone)); simpl; [|done].
  destruct (existsb _ search_terms); [|done].
  unfold row_index. by destruct (r !! 22%nat).
Qed.

(** The search writes one pair per selected row, in sheet order, however
    many of the terms the row contains: column D as it stands in the sheet
    (not stripped) and column W.  A row is selected when its column D is not
    blank and the lower-cased stripped text holds a lower-cased term as a
    substring. *)
Theorem extract_handles_one_pair_per_match (rows : list row)
    (search_terms : list pystr) (out : list row) :
  extract_handles rows search_terms = Ok out →
  out = handle_pair <$> filter (λ r, is_match search_terms r = true) rows
  ∧ ∀ r, is_match search_terms r = true ↔
      ∃ value term l1 l2,
        r !! 3%nat = Some value ∧ value ≠ CNone ∧ term ∈ search_terms
        ∧ str_lower (strip (str_of_cell value)) = l1 ++ str_lower term ++ l2.
Proof.
  intros Hrun. split.
  - unfold extract_handles in Hrun.
    refine (for_each_prefix_inv _
      (λ (pre out : list row),
         out = handle_pair <$> filter (λ r, is_match search_terms r = true) pre)
      rows [] out _ _ Hrun); [done|].
    intros pre r out0 out1 -> Hstep.
    rewrite extract_handles_step_spec in Hstep.
    rewrite filter_app, fmap_app, filter_cons, filter_nil.
    destruct (r !! 3%nat); [|done].
    destruct (is_match search_terms r) eqn:Hm.
    + destruct (r !! 22%nat); [|done]. injection Hstep as <-.
      by rewrite decide_True.
    + injection Hstep as <-. rewrite decide_False by done.
      by rewrite app_nil_r.
  - intros r. unfold is_match. destruct (r !! 3%nat) as [value|].
    + rewrite andb_true_iff, bool_decide_eq_true, existsb_exists. split.
      * intros [Hv (term & Hin & Hc)].
        apply str_contains_spec in Hc as (l1 & l2 & Hc).
        exists value, term, l1, l2. repeat split; try done.
        by apply list_elem_of_In.
      * intros (value' & term & l1 & l2 & [= <-] & Hv & Hin & Hc).
        split; [done|]. exists term. split; [by apply list_elem_of_In|].
        apply str_contains_spec. by exists l1, l2.
    + split; [done|]. by intros (? & ? & ? & ? & ? & _).
Qed.

(** The search fails with an [IndexError], and with nothing else, on a sheet
    with a row of fewer than four cells or a selected row of fewer than
    twenty-three; on every other sheet it succeeds. *)
Theorem extract_handles_index_error (rows : list row)
    (search_terms : list pystr) :
  ((∃ out, extract_handles rows search_terms = Ok out)
   ↔ Forall (λ r, (4 ≤ length r)%nat
                  ∧ (is_match search_terms r = true → (23 ≤ length r)%nat))
       rows)
  ∧ (∀ e, extract_handles rows search_terms = Raise e → e = IndexError).
Proof.
  unfold extract_handles. split.
  - apply for_each_Ok_iff. intros out r.
    rewrite extract_handles_step_spec.
    destruct (r !! 3%nat) as [value|] eqn:H3.
    + apply lookup_lt_Some in H3.
      destruct (is_match search_terms r).
      * destruct (r !! 22%nat) as [w|] eqn:H22.
        -- apply lookup_lt_Some in H22. split; [|by eexists].
           intros _. split; [lia|]. intros _. lia.
        -- apply lookup_ge_None in H22. split; [by intros [? ?]|].
           intros [_ Hlen]. specialize (Hlen eq_refl). lia.
      * split; [|by eexists]. intros _. split; [lia|done].
    + apply lookup_ge_None in H3. split; [by intros [? ?]|].
      intros [? _]. lia.
  - intros e Hr. apply for_each_Raise in Hr as (r & out & _ & Hstep).
    rewrite extract_handles_step_spec in Hstep.
    destruct (r !! 3%nat); [|by injection Hstep as <-].
    destruct (is_match search_terms r); [|done].
    destruct (r !! 22%nat); [done | by injection Hstep as <-].
Qed.

End Properties.

(** * Evaluations on [cpython_tbl] *)

(** ** The gender merge *)

Example merge_rule_examples :
  @update_gender_list cpython_tbl [JStr (u "Male")] (u "Male")
    = ([JStr (u "Male")], false)
  ∧ @update_gender_list cpython_tbl [JStr (u "Male")] (u "Female")
    = ([JStr (u "Female")], true)
  ∧ @update_gender_list cpython_tbl [JStr (u "Unisex")] (u "Male")
    = ([JStr (u "Unisex"); JStr (u "Male")], true)
  ∧ @update_gender_list cpython_tbl [] (u "Female")
    = ([JStr (u "Female")], true).
Proof. by vm_compute. Qed.

(** C2 as stated fails: "male" in lower case is neither Male nor Female as a
    text, so the stated rules append it; the code replaces "Female". *)
Lemma update_gender_list_lowercase_male :
  @update_gender_list cpython_tbl [JStr (u "Female")] (u "male")
    = ([JStr (u "male")], true)
  ∧ ¬ merge_rules opposite_exact [JStr (u "Female")] (u "male")
        (@update_gender_list cpython_tbl [JStr (u "Female")] (u "male")).
Proof.
  split; [by vm_compute|].
  replace (@update_gender_list cpython_tbl [JStr (u "Female")] (u "male"))
    with ([JStr (u "male")], true) by by vm_compute.
  intros Hrules. inversion Hrules; simplify_eq.
Qed.

(** C9 on the list Male, Male and the incoming value Female. *)
Lemma update_gender_list_replaces_all_witness :
  @update_gender_list cpython_tbl [JStr (u "Male"); JStr (u "Male")] (u "Female")
    = ([JStr (u "Female"); JStr (u "Female")], true)
  ∧ occurrences (u "Female")
      (@update_gender_list cpython_tbl
         [JStr (u "Male"); JStr (u "Male")] (u "Female")).1 = 2%nat.
Proof.
  destruct (@update_gender_list_replaces_all cpython_tbl
    [JStr (u "Male"); JStr (u "Male")] (u "Female") (u "Male"))
    as (Heq & _ & Hocc & _).
  - apply str_in_false. by vm_compute.
  - by vm_compute.
  - apply str_in_true. by vm_compute.
  - split; [exact Heq | exact Hocc].
Defined.

(** ** The leader tracker *)

(** C3 as stated fails: the third answer is true. *)
Lemma first_occurrences_third_is_leader :
  first_occurrences ∅
    [CStr (u "H1"); CStr (u "H1"); CStr (u "H2"); CStr (u "H1")]
  ≠ [true; false; false; false].
Proof. by vm_compute. Qed.

Lemma first_occurrences_H1_H1_H2_H1_witness :
  first_occurrences ∅
    [CStr (u "H1"); CStr (u "H1"); CStr (u "H2"); CStr (u "H1")]
  = [true; false; true; false]
  ∧ ∃ out, @update_gender_tags cpython_tbl (u "Happy Socks") (u "size_36_40")
             (u "Female") (sample_sheet sample_H1_H1_H2_H1) = Ok out
      ∧ handles out
        = [CStr (u "H1"); CStr (u "H1"); CStr (u "H2"); CStr (u "H1")]
      ∧ (λ r, bool_decide (gender_of r ≠ CNone)) <$> out
        = [true; false; true; false].
Proof.
  destruct (@first_occurrences_H1_H1_H2_H1 cpython_tbl
    (CStr (u "H1")) (CStr (u "H2")) (u "Happy Socks") (u "size_36_40")
    (u "Female") (sample_sheet sample_H1_H1_H2_H1))
    as (Hseq & out & Hout & Hflags); [by vm_compute|].
  split; [exact Hseq|]. exists out. split; [exact Hout|].
  assert (Hh : handles out
    = [CStr (u "H1"); CStr (u "H1"); CStr (u "H2"); CStr (u "H1")]).
  { revert Hout. vm_compute. by intros [= <-]. }
  split; [exact Hh | exact (Hflags Hh)].
Defined.

(** The updater on [sample_rows]: the first row without a handle and both
    spellings of Sock-A carry the merged list, the second row without a
    handle is blank. *)
Example update_gender_tags_sample :
  match @update_gender_tags cpython_tbl (u "Happy Socks") (u "size_36_40")
          (u "Female") (sample_sheet sample_rows) with
  | Ok out =>
      handles out = [CNone; CNone; CStr (u "Sock-A"); CStr (u "sock-a")]
      ∧ gender_of <$> out
        = [CStr json_female; CNone; CStr json_female; CStr json_female]
  | Raise _ => False
  end.
Proof. by vm_compute. Qed.

(** C1 on [sample_rows]: the second row without a handle is blank. *)
Lemma gender_on_first_row_only_witness :
  ∃ out, @update_gender_tags cpython_tbl (u "Happy Socks") (u "size_36_40")
           (u "Female") (sample_sheet sample_rows) = Ok out
    ∧ first_row_only out
    ∧ gender_of <$> out
      = [CStr json_female; CNone; CStr json_female; CStr json_female].
Proof.
  destruct (@gender_on_first_row_only cpython_tbl (u "Happy Socks")
    (u "size_36_40") (u "Female") (sample_sheet sample_rows))
    as [(out & Hout & Hfirst) _].
  exists out. split; [exact Hout|]. split; [exact Hfirst|].
  pose proof update_gender_tags_sample as Hs. rewrite Hout in Hs. apply Hs.
Defined.

(** The unisex adder on [sample_leader_rows]: the first row without a
    handle and both spellings of Sock-A carry their list, the second row
    without a handle is blank. *)
Example add_unisex_tags_sample :
  match @add_unisex_tags cpython_tbl (sample_sheet sample_leader_rows) with
  | Ok out =>
      handles out = [CNone; CNone; CStr (u "Sock-A"); CStr (u "sock-a")]
      ∧ gender_of <$> out
        = [CStr json_male; CNone; CStr json_male; CStr json_male]
  | Raise _ => False
  end.
Proof. by vm_compute. Qed.

(** C10 on [sample_rows] for the updater and on [sample_leader_rows] for the
    unisex adder: in both, the two rows without a handle form one group and
    the two spellings of Sock-A are two groups. *)
Lemma leader_keyed_on_raw_handle_witness :
  (∃ out, @update_gender_tags cpython_tbl (u "Happy Socks") (u "size_36_40")
            (u "Female") (sample_sheet sample_rows) = Ok out
     ∧ handles out = [CNone; CNone; CStr (u "Sock-A"); CStr (u "sock-a")]
     ∧ (∀ i r, out !! i = Some r →
          (gender_of r = CNone ↔ handle_of r ∈ handles (take i out)))
     ∧ gender_of <$> out
       = [CStr json_female; CNone; CStr json_female; CStr json_female])
  ∧ (∃ out, @add_unisex_tags cpython_tbl (sample_sheet sample_leader_rows)
            = Ok out
     ∧ handles out = [CNone; CNone; CStr (u "Sock-A"); CStr (u "sock-a")]
     ∧ (∀ i r, out !! i = Some r →
          (gender_of r = CNone
           ↔ handle_of r ∈ handles (take i out)
             ∨ ∃ r0, sample_leader_rows !! i = Some r0
                 ∧ @parse_json_list cpython_tbl (gender_of r0) = Ok []))
     ∧ gender_of <$> out
       = [CStr json_male; CNone; CStr json_male; CStr json_male]).
Proof.
  split.
  - destruct (@leader_keyed_on_raw_handle cpython_tbl (u "Happy Socks")
      (u "size_36_40") (u "Female") (sample_sheet sample_rows))
      as [(out & Hout & Hkey) _].
    exists out. split; [exact Hout|].
    pose proof update_gender_tags_sample as Hs. rewrite Hout in Hs.
    destruct Hs as [Hh Hg]. split; [exact Hh|].
    split; [exact Hkey | exact Hg].
  - destruct (@add_unisex_tags cpython_tbl (sample_sheet sample_leader_rows))
      as [out|e] eqn:Hout; [|by vm_compute in Hout].
    destruct (@leader_keyed_on_raw_handle cpython_tbl (u "Happy Socks")
      (u "size_36_40") (u "Female") (sample_sheet sample_leader_rows))
      as [_ Hadd].
    destruct (Hadd out Hout) as [_ Hkey].
    exists out. split; [reflexivity|].
    pose proof add_unisex_tags_sample as Hs. rewrite Hout in Hs.
    destruct Hs as [Hh Hg]. split; [exact Hh|].
    split; [exact Hkey | exact Hg].
Defined.

(** ** Unisex completion and failure behaviour *)

(** C7 on the list Male, Female. *)
Lemma add_unisex_if_complete_spec_witness :
  @add_unisex_spec cpython_tbl [u "Male"; u "Female"]
    = [u "Male"; u "Female"; u "Unisex"]
  ∧ @add_unisex_if_complete cpython_tbl (JStr <$> [u "Male"; u "Female"])
    = Ok (JStr <$> [u "Male"; u "Female"; u "Unisex"])
  ∧ @add_unisex_if_complete cpython_tbl
      (JStr <$> [u "Male"; u "Female"; u "Unisex"])
    = Ok (JStr <$> [u "Male"; u "Female"; u "Unisex"]).
Proof.
  split; [by vm_compute|].
  destruct (@add_unisex_if_complete_spec cpython_tbl [u "Male"; u "Female"])
    as (_ & H1 & H2 & _); [by vm_compute|].
  split; [exact H1 | exact H2].
Defined.

(** C5 fails in the code: the gender cell [[1, 2]] is JSON that decodes to
    a list of two integers; the completeness test calls [lower] on each
    element and raises [AttributeError] on the first, nothing catches it,
    and the whole pass of the unisex adder aborts with it instead of
    degrading. *)
Theorem should_add_unisex_raises :
  @parse_json_list cpython_tbl (CStr (u "[1, 2]")) = Ok [JInt 1; JInt 2]
  ∧ @should_add_unisex cpython_tbl [JInt 1; JInt 2] = Raise AttributeError
  ∧ @add_unisex_if_complete cpython_tbl [JInt 1; JInt 2] = Raise AttributeError
  ∧ @add_unisex_tags cpython_tbl
      (sample_sheet [sample_row (CStr (u "Sock-A")) (CStr (u "[1, 2]"))])
    = Raise AttributeError.
Proof. by vm_compute. Qed.

(** ** Encoding the gender cell *)

(** C8 as stated fails: a first row whose gender cell is blank decodes to the
    empty list, which the encoder would write as "[]"; the unisex adder
    writes a blank. *)
Lemma add_unisex_tags_blank_for_empty_list :
  @parse_json_list cpython_tbl CNone = Ok []
  ∧ @add_unisex_if_complete cpython_tbl [] = Ok []
  ∧ format_json_list [] = u "[]"
  ∧ match @add_unisex_tags cpython_tbl
            (sample_sheet [sample_row (CStr (u "Sock-A")) CNone]) with
    | Ok [r] => handle_of r = CStr (u "Sock-A") ∧ gender_of r = CNone
    | _ => False
    end.
Proof. by vm_compute. Qed.

(** C8 on [sample_rows]. *)
Lemma gender_cell_encoding_witness :
  format_json_list [] = u "[]"
  ∧ format_json_list [JStr (u "Female")] = json_female
  ∧ ∃ out, @update_gender_tags cpython_tbl (u "Happy Socks") (u "size_36_40")
             (u "Female") (sample_sheet sample_rows) = Ok out
      ∧ gender_of <$> out
        = [CStr json_female; CNone; CStr json_female; CStr json_female].
Proof.
  destruct (@gender_cell_encoding cpython_tbl (u "Happy Socks")
    (u "size_36_40") (u "Female") (sample_sheet sample_rows))
    as (Hnil & _ & (out & Hout & _) & _).
  split; [exact Hnil|]. split; [by vm_compute|].
  exists out. split; [exact Hout|].
  pose proof update_gender_tags_sample as Hs. rewrite Hout in Hs. apply Hs.
Defined.

(** ** Handle matching *)

(** C4 as stated fails: "Sock-A" and "sock-a" share the key "sock-a"; the
    mapping ends up with "sock-a", the last of the two, and that is the text
    written into the matching master row; "Sock-A", the first, is lost. *)
Lemma handle_mapping_keeps_last :
  @normalize_handle cpython_tbl (CStr (u "Sock-A")) = u "sock-a"
  ∧ @normalize_handle cpython_tbl (CStr (u "sock-a")) = u "sock-a"
  ∧ match @extract_handles_from_reference cpython_tbl sample_reference with
    | Ok (_, handle_mapping) =>
        handle_mapping !! u "sock-a" = Some (u "sock-a")
        ∧ handle_mapping !! u "sock-a" ≠ Some (u "Sock-A")
    | Raise _ => False
    end
  ∧ @segment cpython_tbl sample_reference sample_master
    = Ok [[CInt 1; CStr (u "sock-a"); CInt 3]].
Proof. by vm_compute. Qed.

(** C4 on [sample_reference] and [sample_master]. *)
Lemma handle_mapping_last_wins_witness :
  ∃ handles handle_mapping,
    @extract_handles_from_reference cpython_tbl sample_reference
      = Ok (handles, handle_mapping)
    ∧ handle_mapping !! u "sock-a"
      = last (filter (λ s, @normalize_handle cpython_tbl (CStr s) = u "sock-a")
                [u "Sock-A"; u "sock-a"])
    ∧ handle_mapping !! u "sock-a" = Some (u "sock-a").
Proof.
  destruct (@extract_handles_from_reference cpython_tbl sample_reference)
    as [[handles handle_mapping]|e] eqn:Href; [|by vm_compute in Href].
  exists handles, handle_mapping. split; [reflexivity|].
  destruct (@handle_mapping_last_wins cpython_tbl sample_reference handles
              handle_mapping Href) as (_ & Hlast & _).
  split; [apply Hlast|]. rewrite Hlast. by vm_compute.
Defined.

(** C6 fails on the handle "№5": the numero sign has no lower-case form and
    decomposes to "No", so an upper-case letter reaches the key, and
    normalizing the key once more gives another key. *)
Lemma normalize_handle_not_idempotent :
  @normalize_handle cpython_tbl (CStr numero_5) = u "No5"
  ∧ @normalize_handle cpython_tbl
      (CStr (@normalize_handle cpython_tbl (CStr numero_5))) = u "no5"
  ∧ @normalize_handle cpython_tbl
      (CStr (@normalize_handle cpython_tbl (CStr numero_5)))
    ≠ @normalize_handle cpython_tbl (CStr numero_5).
Proof. by vm_compute. Qed.

Example normalize_handle_examples :
  @normalize_handle cpython_tbl (CStr brand_tm_socks)
    = @normalize_handle cpython_tbl (CStr (u "Brand Socks"))
  ∧ @normalize_handle cpython_tbl (CStr brand_tm_socks) = u "brandsocks"
  ∧ @normalize_handle cpython_tbl (CStr cafe_accent) = u "cafe"
  ∧ @normalize_handle cpython_tbl (CStr (u "a -- b")) = u "a-b"
  ∧ @normalize_handle cpython_tbl CNone = []
  ∧ @normalize_handle cpython_tbl (CStr []) = [].
Proof. by vm_compute. Qed.

(** [cpython_tbl] leaves texts of a-z, 0-9 and hyphens as they are. *)
Lemma lower_tbl_key s :
  Forall (λ c, key_char c = true) s → lower_tbl s = s.
Proof.
  induction 1 as [|c s Hc _ IH]; [done|].
  unfold lower_tbl in *. csimpl. rewrite IH. f_equal.
  unfold key_char, HYPHEN in Hc.
  rewrite !orb_true_iff, !andb_true_iff, !N.leb_le, N.eqb_eq in Hc.
  unfold lower_char.
  repeat match goal with
         | |- context [?a <=? ?b] => destruct (N.leb_spec a b)
         | |- context [?a =? ?b] => destruct (N.eqb_spec a b)
         end; simpl; lia.
Qed.

Lemma nfkd_table_keys : Forall (λ kv, 128 ≤ kv.1) nfkd_table.
Proof. apply (bool_decide_unpack _). by vm_compute. Qed.

Lemma assoc_None table c :
  Forall (λ kv : N * pystr, kv.1 ≠ c) table → assoc table c = None.
Proof.
  induction 1 as [|[k v] table Hk _ IH]; [done|].
  simpl in *. destruct (N.eqb_spec c k); [by subst|done].
Qed.

Lemma nfkd_tbl_key s :
  Forall (λ c, key_char c = true) s → nfkd_tbl s = s.
Proof.
  induction 1 as [|c s Hc _ IH]; [done|].
  unfold nfkd_tbl in *. csimpl. rewrite IH.
  unfold nfkd_char. rewrite assoc_None; [done|].
  eapply Forall_impl; [apply nfkd_table_keys|].
  intros [k v] Hk. simpl in *.
  unfold key_char, HYPHEN in Hc.
  rewrite !orb_true_iff, !andb_true_iff, !N.leb_le, N.eqb_eq in Hc. lia.
Qed.

Lemma normalize_handle_idempotent_on_keys_witness :
  @normalize_handle cpython_tbl (CStr brand_tm_socks) = u "brandsocks"
  ∧ @normalize_handle cpython_tbl
      (CStr (@normalize_handle cpython_tbl (CStr brand_tm_socks)))
    = @normalize_handle cpython_tbl (CStr brand_tm_socks).
Proof.
  split; [by vm_compute|].
  apply (@normalize_handle_idempotent_on_keys cpython_tbl).
  - apply lower_tbl_key.
  - apply nfkd_tbl_key.
  - apply (bool_decide_unpack _). by vm_compute.
Defined.

(** ** Classification and the three-way split *)

Example categorize_product_examples :
  categorize_product [u "size_36_40"] = (Some female_only, [u "Female"])
  ∧ categorize_product [u "size_41_46"; u "size_36_40"]
    = (Some unisex, [u "Female"; u "Male"; u "Unisex"])
  ∧ categorize_product [] = (None, [])
  ∧ parse_comma_separated_tags (CStr (u " size_41_46 ,, size_36_40 "))
    = [u "size_41_46"; u "size_36_40"].
Proof. by vm_compute. Qed.

Example split_happy_socks_scenario :
  (λ r, (handle_of r, gender_of r))
    <$> split_happy_socks (sample_sheet scenario_rows) female_only
    = [(CStr (u "Sock-A"), CStr json_female); (CStr (u "Sock-A"), CNone)]
  ∧ (λ r, (handle_of r, gender_of r))
      <$> split_happy_socks (sample_sheet scenario_rows) male_only
    = [(CStr (u "Sock-B"), CStr json_male)]
  ∧ split_happy_socks (sample_sheet scenario_rows) unisex = [].
Proof. by vm_compute. Qed.

(** ** More on the gender merge *)

Lemma update_gender_list_no_new_duplicates_witness :
  NoDup (@update_gender_list cpython_tbl
           [JStr (u "Unisex"); JStr (u "Male")] (u "Female")).1
  ∧ @update_gender_list cpython_tbl
      [JStr (u "Unisex"); JStr (u "Male")] (u "Female")
    = ([JStr (u "Unisex"); JStr (u "Female")], true).
Proof.
  split; [|by vm_compute].
  apply (@update_gender_list_no_new_duplicates cpython_tbl).
  apply NoDup_cons. split; [|apply NoDup_singleton].
  intros Hin. apply list_elem_of_singleton in Hin. by vm_compute in Hin.
Defined.

(** ** The codecs *)

Lemma parse_comma_separated_tags_clean_witness :
  parse_comma_separated_tags (CStr (u " size_41_46 ,, size_36_40 "))
    = [u "size_41_46"; u "size_36_40"]
  ∧ strip (u "size_36_40") = u "size_36_40"
  ∧ parse_comma_separated_tags (CStr (u " , ,")) = [].
Proof.
  split; [by vm_compute|]. split; [|by vm_compute].
  apply (parse_comma_separated_tags_clean
           (CStr (u " size_41_46 ,, size_36_40 ")) (u "size_36_40")).
  apply (bool_decide_unpack _). by vm_compute.
Defined.

Lemma parse_format_json_list_witness :
  @parse_json_list cpython_tbl
    (CStr (format_json_list [JStr (u "Male"); JStr (u "Female")]))
  = Ok [JStr (u "Male"); JStr (u "Female")].
Proof.
  apply (@parse_format_json_list cpython_tbl). by vm_compute.
Defined.

(** ** Whole passes *)

Lemma update_gender_tags_rerun_witness :
  ∃ out, @update_gender_tags cpython_tbl (u "Happy Socks") (u "size_36_40")
           (u "Female") (sample_sheet sample_rows) = Ok out
    ∧ @update_gender_tags cpython_tbl (u "Happy Socks") (u "size_36_40")
        (u "Female") (output_sheet (sample_sheet sample_rows) out) = Ok out.
Proof.
  destruct (@update_gender_tags cpython_tbl (u "Happy Socks") (u "size_36_40")
              (u "Female") (sample_sheet sample_rows)) as [out|e] eqn:Hout;
    [|by vm_compute in Hout].
  exists out. split; [reflexivity|].
  apply (@update_gender_tags_rerun cpython_tbl); [|exact Hout].
  intros r current Hin Hp. simpl in Hin.
  repeat (apply elem_of_cons in Hin as [->|Hin];
          [vm_compute in Hp; injection Hp as <-; by vm_compute|]).
  by apply elem_of_nil in Hin.
Defined.

Lemma add_unisex_tags_attribute_error_witness :
  ∃ r items g,
    r ∈ [sample_row (CStr (u "Sock-A")) (CStr (u "[1, 2]"))]
    ∧ @parse_json_list cpython_tbl (gender_of r) = Ok items
    ∧ (2 ≤ length items)%nat ∧ g ∈ items ∧ is_str g = false.
Proof.
  apply (@add_unisex_tags_attribute_error cpython_tbl
           (sample_sheet [sample_row (CStr (u "Sock-A")) (CStr (u "[1, 2]"))])).
  by vm_compute.
Defined.

Lemma update_gender_tags_selects_and_copies_witness :
  ∃ out, @update_gender_tags cpython_tbl (u "Happy Socks") (u "size_36_40")
           (u "Female") (sample_sheet sample_rows) = Ok out
    ∧ length out
      = length (filter
          (λ r, @matches_criteria (u "Happy Socks") (u "size_36_40") r)
          (data_rows (sample_sheet sample_rows)))
    ∧ ∀ i r,
        filter (λ r, @matches_criteria (u "Happy Socks") (u "size_36_40") r)
          (data_rows (sample_sheet sample_rows)) !! i = Some r →
        ∃ r', out !! i = Some r'
          ∧ ∀ column, (1 ≤ column)%nat → column ≠ GENDER_COL →
              cell_value r' column = cell_value r column.
Proof.
  destruct (@update_gender_tags cpython_tbl (u "Happy Socks") (u "size_36_40")
              (u "Female") (sample_sheet sample_rows)) as [out|e] eqn:Hout;
    [|by vm_compute in Hout].
  exists out. split; [reflexivity|].
  exact (@update_gender_tags_selects_and_copies cpython_tbl _ _ _ _ _ Hout).
Defined.

Lemma add_unisex_tags_rerun_witness :
  ∃ out, @add_unisex_tags cpython_tbl (sample_sheet sample_unisex_rows) = Ok out
    ∧ gender_of <$> out
      = [CStr (format_json_list
                 [JStr (u "Male"); JStr (u "Female"); JStr (u "Unisex")]);
         CNone; CStr json_male]
    ∧ @add_unisex_tags cpython_tbl
        (output_sheet (sample_sheet sample_unisex_rows) out) = Ok out.
Proof.
  destruct (@add_unisex_tags cpython_tbl (sample_sheet sample_unisex_rows))
    as [out|e] eqn:Hout; [|by vm_compute in Hout].
  exists out. split; [reflexivity|]. split.
  { revert Hout. vm_compute. by intros [= <-]. }
  apply (@add_unisex_tags_rerun cpython_tbl); [by vm_compute | | exact Hout].
  intros r current updated Hin Hp Ha. simpl in Hin.
  repeat (apply elem_of_cons in Hin as [->|Hin];
          [vm_compute in Hp; injection Hp as <-;
           vm_compute in Ha; injection Ha as <-; by vm_compute|]).
  by apply elem_of_nil in Hin.
Defined.

Lemma add_unisex_tags_keeps_rows_witness :
  ∃ out, @add_unisex_tags cpython_tbl (sample_sheet sample_unisex_rows) = Ok out
    ∧ length out = length (data_rows (sample_sheet sample_unisex_rows))
    ∧ ∀ i r, data_rows (sample_sheet sample_unisex_rows) !! i = Some r →
        ∃ r', out !! i = Some r'
          ∧ ∀ column, (1 ≤ column)%nat → column ≠ GENDER_COL →
              cell_value r' column = cell_value r column.
Proof.
  destruct (@add_unisex_tags cpython_tbl (sample_sheet sample_unisex_rows))
    as [out|e] eqn:Hout; [|by vm_compute in Hout].
  exists out. split; [reflexivity|].
  exact (@add_unisex_tags_keeps_rows cpython_tbl _ _ Hout).
Defined.

Lemma segment_writes_reference_handles_witness :
  ∃ out, @segment cpython_tbl sample_reference sample_master = Ok out
    ∧ ∃ kept, kept `sublist_of` sample_master
        ∧ Forall2 (λ r row, ∃ original, row = <[1%nat := CStr original]> r)
            kept out.
Proof.
  destruct (@segment cpython_tbl sample_reference sample_master)
    as [out|e] eqn:Hout; [|by vm_compute in Hout].
  exists out. split; [reflexivity|].
  exact (proj2 (@segment_writes_reference_handles cpython_tbl _ _ _ Hout)).
Defined.

Lemma normalize_handle_ignores_symbols_witness :
  @normalize_handle cpython_tbl (CStr (u "Brand" ++ 8482 :: u " Socks"))
  = @normalize_handle cpython_tbl (CStr (u "Brand" ++ u " Socks")).
Proof.
  apply (@normalize_handle_ignores_symbols cpython_tbl).
  - by left.
  - by vm_compute.
  - by vm_compute.
  - by vm_compute.
Defined.

Lemma extract_size_tags_sorted_unique_witness :
  ∃ tags, @extract_size_tags sample_size_rows = Ok tags
    ∧ StronglySorted (λ a b, str_lt a b = true) tags
    ∧ NoDup tags
    ∧ ∀ tag, tag ∈ tags ↔ ∃ r, r ∈ sample_size_rows ∧ size_tag_of_row r tag.
Proof.
  destruct (extract_size_tags sample_size_rows) as [tags|e] eqn:Hout;
    [|by vm_compute in Hout].
  exists tags. split; [reflexivity|].
  exact (extract_size_tags_sorted_unique _ _ Hout).
Defined.

Lemma extract_handles_one_pair_per_match_witness :
  ∃ out, @extract_handles cpython_tbl sample_search_rows [u "socks"] = Ok out
    ∧ out = handle_pair <$>
        filter (λ r, @is_match cpython_tbl [u "socks"] r = true)
          sample_search_rows.
Proof.
  destruct (@extract_handles cpython_tbl sample_search_rows [u "socks"])
    as [out|e] eqn:Hout; [|by vm_compute in Hout].
  exists out. split; [reflexivity|].
  exact (proj1 (@extract_handles_one_pair_per_match cpython_tbl _ _ _ Hout)).
Defined.
